(** * GenSVM / MSVMMaj: kernel preprocessing, prediction, tasks and
      model (re)allocation, embedded from the C sources.

    Conventions of the embedding.
    - A C [double] is a real number; rounding, overflow to infinity and
      NaN are outside that model.  Where the result of the code is decided
      by comparisons of computed doubles, in the search for the nearest
      simplex vertex of gensvm_pred.c, the code is also embedded over
      doubles that are left open (module [Machine]), and the general
      properties of the prediction functions are stated there.
    - A C [long] or [int] is an integer of [Z]; the sizes the program
      handles are assumed to stay within the machine range.
    - An array is a list read and written by index.  A read or write
      outside the array is undefined in C; here a read returns the default
      element and a write does nothing.
    - [exit] is an outcome of its own, so a call either returns a state or
      stops the process with a status.
    - Arrays whose identity matters (kernel parameter arrays, the shared
      data sets of a task) live in a heap of numbered blocks. *)

From Stdlib Require Import ZArith Reals Lra Lia String.
From stdpp Require Import base decidable option numbers list list_numbers gmap.

Local Open Scope Z_scope.

(** ** Counted loops *)

(** [for (i = lo; i < hi; i++) s = body i s] *)
Definition for_loop {St : Type} (lo hi : Z) (body : Z -> St -> St) (s : St) : St :=
  foldl (fun acc i => body i acc) s (seqZ lo (hi - lo)).

(** ** Arrays *)

Section arrays.
Context {A : Type}.

(** [a[i]], with default [d] outside the array *)
Definition aget (d : A) (a : list A) (i : Z) : A :=
  if decide (0 <= i) then default d (a !! Z.to_nat i) else d.

(** [a[i] = v] *)
Definition aset (a : list A) (i : Z) (v : A) : list A :=
  if decide (0 <= i) then <[Z.to_nat i := v]> a else a.

(** [&a[off]]: the array seen from offset [off] *)
Definition offset (a : list A) (off : Z) : list A :=
  if decide (0 <= off) then drop (Z.to_nat off) a else a.

End arrays.

(** The macros [matrix_get(M, cols, i, j)] and [matrix_set(M, cols, i, j, v)]
    of the matrix header address a row-major matrix, [M[i*cols+j]]; the
    header is not part of the sources at hand, the layout is the one the
    code itself uses in [&data->Z[i*(data->m+1)+1]]. *)
Definition matrix_get (M : list R) (cols i j : Z) : R :=
  aget 0%R M (i * cols + j).

Definition matrix_set (M : list R) (cols i j : Z) (v : R) : list R :=
  aset M (i * cols + j) v.

(** ** Conversions between [double] and [long] *)

(** [(long) x]: truncation toward zero *)
Definition long_of_double (x : R) : Z :=
  if Rle_dec 0 x then Int_part x else - Int_part (- x).

(** ** Outcomes of a call *)

Inductive outcome (A : Type) : Type :=
| Ret (a : A)
| Exit (status : Z).
Arguments Ret {A} a.
Arguments Exit {A} status.

#[global] Instance outcome_ret : MRet outcome := fun A a => Ret a.

#[global] Instance outcome_bind : MBind outcome := fun A B k c =>
  match c with
  | Ret a => k a
  | Exit s => Exit s
  end.

(** ** The heap of [double] blocks *)

Definition loc := positive.

(** A pointer to a block; [None] is [NULL]. *)
Definition ptr := option loc.

Section heap.
Implicit Types (h : gmap loc (list R)) (p : ptr).

(** [malloc]/[calloc] of a block holding [init] *)
Definition alloc h (init : list R) : loc * gmap loc (list R) :=
  let l := fresh (dom h) in (l, <[l := init]> h).

(** [free(p)]; [free(NULL)] does nothing *)
Definition free h p : gmap loc (list R) :=
  match p with
  | Some l => delete l h
  | None => h
  end.

(** the array [p] points to; empty when [p] does not point to a live block *)
Definition deref h p : list R :=
  default [] (p ≫= fun l => h !! l).

(** [p[i] = v] *)
Definition store h p (i : Z) (v : R) : gmap loc (list R) :=
  match p with
  | Some l => alter (fun a => aset a i v) l h
  | None => h
  end.

End heap.

(** ** Kernel types *)

Inductive KernelType : Type := K_LINEAR | K_POLY | K_RBF | K_SIGMOID.

#[global] Instance KernelType_eq_dec : EqDecision KernelType.
Proof. solve_decision. Defined.

(** ** The model and data structures

    [struct GenModel] and [struct GenData] as declared in gensvm.h;
    [struct MajModel] and [struct MajData] are their names in the
    msvmmaj_* sources.  [use_cholesky] is the flag msvmmaj_make_kernel
    reads and copies, [r] the reduced dimension the later revision of
    gensvm_predict_labels reads.  The fields [R] and [Z] of the C structs
    are [model_R] and [data_Z] here. *)

Record GenModel : Type := {
  model_weight_idx : Z;
  model_K : Z;
  model_n : Z;
  model_m : Z;
  model_epsilon : R;
  model_p : R;
  model_kappa : R;
  model_lambda : R;
  model_W : list R;
  model_t : list R;
  model_V : list R;
  model_Vbar : list R;
  model_U : list R;
  model_UU : list R;
  model_Q : list R;
  model_H : list R;
  model_R : list R;
  model_rho : list R;
  model_training_error : R;
  model_data_file : string;
  model_kerneltype : KernelType;
  model_kernelparam : ptr;
  model_use_cholesky : bool
}.

Record GenData : Type := {
  data_K : Z;
  data_n : Z;
  data_m : Z;
  data_r : Z;
  data_y : option (list Z);
  data_Z : list R;
  data_RAW : list R;
  data_J : list R;
  data_kerneltype : KernelType;
  data_kernelparam : ptr;
  data_use_cholesky : bool
}.

Abbreviation MajModel := GenModel (only parsing).
Abbreviation MajData := GenData (only parsing).

(** [model->m = v] *)
Definition set_model_m (model : GenModel) (v : Z) : GenModel :=
  {| model_weight_idx := model_weight_idx model; model_K := model_K model;
     model_n := model_n model; model_m := v;
     model_epsilon := model_epsilon model; model_p := model_p model;
     model_kappa := model_kappa model; model_lambda := model_lambda model;
     model_W := model_W model; model_t := model_t model;
     model_V := model_V model; model_Vbar := model_Vbar model;
     model_U := model_U model; model_UU := model_UU model;
     model_Q := model_Q model; model_H := model_H model;
     model_R := model_R model; model_rho := model_rho model;
     model_training_error := model_training_error model;
     model_data_file := model_data_file model;
     model_kerneltype := model_kerneltype model;
     model_kernelparam := model_kernelparam model;
     model_use_cholesky := model_use_cholesky model |}.

(** ** msvmmaj_kernel.c *)

Local Notation "a .[ i ]" := (aget 0%R a i) (at level 1, format "a .[ i ]").

(** msvmmaj_compute_rbf; [exp] is the exponential of the real numbers,
    which is never 0, where that of the machine returns 0.0 for an
    argument below about -745. *)
Definition msvmmaj_compute_rbf (x1 x2 kernelparam : list R) (n : Z) : R :=
  let value := for_loop 0 n
    (fun i value => value + (x1.[i] - x2.[i]) * (x1.[i] - x2.[i]))%R 0%R in
  let value := (value * - kernelparam.[0])%R in
  exp value.

(** msvmmaj_compute_poly; [pow(value, (int) kernelparam[2])], the cast
    truncating like the one to [long] *)
Definition msvmmaj_compute_poly (x1 x2 kernelparam : list R) (n : Z) : R :=
  let value := for_loop 0 n (fun i value => value + x1.[i] * x2.[i])%R 0%R in
  let value := (value * kernelparam.[0])%R in
  let value := (value + kernelparam.[1])%R in
  powerRZ value (long_of_double kernelparam.[2]).

(** msvmmaj_compute_sigmoid; [tanh] is that of the real numbers, which
    stays inside (-1, 1), where that of the machine returns 1.0 or -1.0
    for an argument beyond about 19 in size. *)
Definition msvmmaj_compute_sigmoid (x1 x2 kernelparam : list R) (n : Z) : R :=
  let value := for_loop 0 n (fun i value => value + x1.[i] * x2.[i])%R 0%R in
  let value := (value * kernelparam.[0])%R in
  let value := (value + kernelparam.[1])%R in
  tanh value.

(** The body of the inner loop of msvmmaj_make_kernel up to the two
    [matrix_set] calls: [value] for the pair (i, j).  The branch for
    K_SIGMOID calls msvmmaj_compute_rbf, as the source does.  The last
    branch of the source ([exit(1)] on an unknown kernel type) is the case
    K_LINEAR here, which the early return of msvmmaj_make_kernel excludes. *)
Definition kernel_value (model : MajModel) (data : MajData)
    (kernelparam : list R) (i j : Z) : R :=
  let x1 := offset (data_Z data) (i * (data_m data + 1) + 1) in
  let x2 := offset (data_Z data) (j * (data_m data + 1) + 1) in
  match model_kerneltype model with
  | K_POLY => msvmmaj_compute_poly x1 x2 kernelparam (data_m data)
  | K_RBF => msvmmaj_compute_rbf x1 x2 kernelparam (data_m data)
  | K_SIGMOID => msvmmaj_compute_rbf x1 x2 kernelparam (data_m data)
  | K_LINEAR => 0%R
  end.

(** The first pair of loops of msvmmaj_make_kernel: the matrix [K] after
    [Calloc(double, n*n*sizeof(double))] and the fill of both triangles. *)
Definition make_kernel_gram (model : MajModel) (data : MajData)
    (kernelparam : list R) : list R :=
  let n := model_n model in
  let K := replicate (Z.to_nat (n * n * 8)) 0%R in
  for_loop 0 n (fun i K =>
    for_loop i n (fun j K =>
      let value := kernel_value model data kernelparam i j in
      let K := matrix_set K n i j value in
      matrix_set K n j i value) K) K.

(** The second pair of loops: copy [K] behind a column of ones. *)
Definition make_kernel_copy (n : Z) (K Zm : list R) : list R :=
  for_loop 0 n (fun i Zm =>
    let Zm := for_loop 0 n (fun j Zm =>
      matrix_set Zm (n + 1) i (j + 1) (matrix_get K n i j)) Zm in
    matrix_set Zm (n + 1) i 0 1%R) Zm.

(** The [switch] at the end of msvmmaj_make_kernel: the new parameter
    array of the data, a [Calloc] block filled from the model's array. *)
Definition make_kernel_param (h : gmap loc (list R)) (model : MajModel)
    (old : ptr) : ptr * gmap loc (list R) :=
  let mp := model_kernelparam model in
  match model_kerneltype model with
  | K_LINEAR => (old, h)
  | K_POLY =>
      let '(l, h) := alloc h (replicate 3 0%R) in
      let h := store h (Some l) 0 (deref h mp).[0] in
      let h := store h (Some l) 1 (deref h mp).[1] in
      let h := store h (Some l) 2 (deref h mp).[2] in
      (Some l, h)
  | K_RBF =>
      let '(l, h) := alloc h (replicate 1 0%R) in
      let h := store h (Some l) 0 (deref h mp).[0] in
      (Some l, h)
  | K_SIGMOID =>
      let '(l, h) := alloc h (replicate 2 0%R) in
      let h := store h (Some l) 0 (deref h mp).[0] in
      let h := store h (Some l) 1 (deref h mp).[1] in
      (Some l, h)
  end.

Section make_kernel.
(** [dpotrf('L', n, K, n)] of the LAPACK wrapper: the status and the
    contents of [K] afterwards. *)
Context (dpotrf : Z -> list R -> Z * list R).
(** What storage holds before it is first written. *)
Context (uninit : R).

(** msvmmaj_make_kernel *)
Definition msvmmaj_make_kernel (h : gmap loc (list R)) (model : MajModel)
    (data : MajData) : outcome (gmap loc (list R) * MajModel * MajData) :=
  if decide (model_kerneltype model = K_LINEAR) then Ret (h, model, data)
  else
    let n := model_n model in
    let K := make_kernel_gram model data (deref h (model_kernelparam model)) in
    K ← (if model_use_cholesky model then
           let '(status, K) := dpotrf n K in
           if decide (status ≠ 0) then Exit 0 else Ret K
         else Ret K);
    let Zm := resize (Z.to_nat (n * (n + 1))) uninit (data_Z data) in
    let Zm := make_kernel_copy n K Zm in
    let h := free h (data_kernelparam data) in
    let '(kp, h) := make_kernel_param h model (data_kernelparam data) in
    let data :=
      {| data_K := data_K data; data_n := data_n data; data_m := n;
         data_r := data_r data; data_y := data_y data; data_Z := Zm;
         data_RAW := data_RAW data; data_J := data_J data;
         data_kerneltype := model_kerneltype model;
         data_kernelparam := kp;
         data_use_cholesky := model_use_cholesky model |} in
    Ret (h, set_model_m model n, data).

End make_kernel.

(** ** gensvm_pred.c *)

(** [cblas_dgemm(CblasRowMajor, CblasNoTrans, CblasNoTrans, M, N, K, alpha,
    A, lda, B, ldb, beta, C, ldc)] of the BLAS: [C := alpha*A*B + beta*C]
    on row-major matrices. *)
Definition cblas_dgemm (M N K : Z) (alpha : R) (A : list R) (lda : Z)
    (B : list R) (ldb : Z) (beta : R) (C : list R) (ldc : Z) : list R :=
  for_loop 0 M (fun i C =>
    for_loop 0 N (fun j C =>
      let s := for_loop 0 K
        (fun k s => s + A.[i * lda + k] * B.[k * ldb + j])%R 0%R in
      aset C (i * ldc + j) (alpha * s + beta * C.[i * ldc + j])%R) C) C.

(** [cblas_dnrm2(N, X, 1)] of the BLAS: the Euclidean norm of the first
    [N] elements of [X].  [beyond] is what a read behind the end of [X]
    finds. *)
Definition cblas_dnrm2 (beyond : R) (N : Z) (X : list R) : R :=
  sqrt (for_loop 0 N
    (fun k s => s + aget beyond X k * aget beyond X k)%R 0%R).

(** The loop over [k] that fills the scratch vector [S] with the
    difference of row [i] of [ZV] and row [j] of [U]. *)
Definition fill_S (K : Z) (ZV U : list R) (i j : Z) (Sv : list R) : list R :=
  for_loop 0 (K - 1) (fun k Sv =>
    aset Sv k (matrix_get ZV (K - 1) i k - matrix_get U (K - 1) j k)%R) Sv.

(** gensvm_prediction_perf, the same in both revisions of the file; a
    missing label vector reads as the empty array. *)
Definition gensvm_prediction_perf (data : GenData) (predy : list Z) : R :=
  let y := default [] (data_y data) in
  let correct := for_loop 0 (data_n data) (fun i correct =>
    if decide (aget 0 y i = aget 0 predy i) then correct + 1 else correct) 0 in
  (IZR correct / IZR (data_n data) * 100)%R.

(** The revision of gensvm_pred.c with a linear and a kernel path. *)
Module Rev1.
Section predict.
(** [gensvm_simplex_gen(K, U)]: the contents of [U] afterwards. *)
Context (gensvm_simplex_gen : Z -> list R -> list R).
(** [gensvm_make_crosskernel(model, data_train, data_test, &K2)]: the
    matrix [K2] it allocates. *)
Context (gensvm_make_crosskernel : GenModel -> GenData -> GenData -> list R).
(** What the read of [S[K-1]] by [cblas_dnrm2(K, S, 1)] finds behind the
    [K-1] elements of [S]. *)
Context (beyond : R).

(** The two inner loops of the linear path for instance [i]: the state is
    [label], [min_dist] and the scratch vector [S] ([Sv]).  The norm is
    taken over the [K-1] elements [S] has, so nothing is read behind it. *)
Definition nearest_linear (K : Z) (ZV U : list R) (i : Z) (Sv : list R)
    : Z * R * list R :=
  for_loop 0 K (fun j '(label, min_dist, Sv) =>
    let Sv := fill_S K ZV U i j Sv in
    let norm := cblas_dnrm2 0%R (K - 1) Sv in
    if Rlt_dec norm min_dist then (j + 1, norm, Sv) else (label, min_dist, Sv))
    (0, 1000000000%R, Sv).

(** gensvm_predict_labels_linear *)
Definition gensvm_predict_labels_linear (data : GenData) (model : GenModel)
    (predy : list Z) : list Z :=
  let n := data_n data in
  let m := data_m data in
  let K := model_K model in
  let Sv := replicate (Z.to_nat (K - 1)) 0%R in
  let ZV := replicate (Z.to_nat (n * (K - 1))) 0%R in
  let U := replicate (Z.to_nat (K * (K - 1))) 0%R in
  let U := gensvm_simplex_gen K U in
  let ZV := cblas_dgemm n (K - 1) (m + 1) 1 (data_Z data) (m + 1)
              (model_V model) (K - 1) 0 ZV (K - 1) in
  fst (for_loop 0 n (fun i '(predy, Sv) =>
    let '(label, _, Sv) := nearest_linear K ZV U i Sv in
    (aset predy i label, Sv)) (predy, Sv)).

(** The loops of the kernel path that build [KPS]. *)
Definition kernel_KPS (n_test n_train r : Z) (K2 Ztrain J KPS : list R)
    : list R :=
  for_loop 0 n_test (fun i KPS =>
    let KPS := for_loop 1 (r + 1) (fun j KPS =>
      let value := for_loop 0 n_train (fun k value =>
        let rowvalue := matrix_get K2 n_train i k in
        let rowvalue := (rowvalue * matrix_get Ztrain (r + 1) k j)%R in
        (value + rowvalue)%R) 0%R in
      let value := (value * matrix_get J 1 j 0)%R in
      matrix_set KPS (r + 1) i j value) KPS in
    matrix_set KPS (r + 1) i 0 1%R) KPS.

(** The two inner loops of the kernel path for instance [i]; the norm is
    taken over [K] elements of the [K-1] element vector [S]. *)
Definition nearest_kernel (K : Z) (ZV U : list R) (i : Z) (Sv : list R)
    : Z * R * list R :=
  for_loop 0 K (fun j '(label, min_dist, Sv) =>
    let Sv := fill_S K ZV U i j Sv in
    let norm := cblas_dnrm2 beyond K Sv in
    if Rlt_dec norm min_dist then (j + 1, norm, Sv) else (label, min_dist, Sv))
    (0, 10000000000%R, Sv).

(** gensvm_predict_labels_kernel *)
Definition gensvm_predict_labels_kernel (data_test data_train : GenData)
    (model : GenModel) (predy : list Z) : list Z :=
  let n_train := data_n data_train in
  let n_test := data_n data_test in
  let r := model_m model in
  let K := model_K model in
  let K2 := gensvm_make_crosskernel model data_train data_test in
  let Sv := replicate (Z.to_nat (K - 1)) 0%R in
  let ZV := replicate (Z.to_nat (n_test * (r + 1))) 0%R in
  let KPS := replicate (Z.to_nat (n_test * (r + 1))) 0%R in
  let U := replicate (Z.to_nat (K * (K - 1))) 0%R in
  let U := gensvm_simplex_gen K U in
  let KPS := kernel_KPS n_test n_train r K2 (data_Z data_train)
               (data_J data_train) KPS in
  let ZV := cblas_dgemm n_test (K - 1) (r + 1) 1 KPS (r + 1)
              (model_V model) (K - 1) 0 ZV (K - 1) in
  fst (for_loop 0 n_test (fun i '(predy, Sv) =>
    let '(label, _, Sv) := nearest_kernel K ZV U i Sv in
    (aset predy i label, Sv)) (predy, Sv)).

(** gensvm_predict_labels, the dispatcher on the kernel type *)
Definition gensvm_predict_labels (data_test data_train : GenData)
    (model : GenModel) (predy : list Z) : list Z :=
  if decide (model_kerneltype model = K_LINEAR)
  then gensvm_predict_labels_linear data_test model predy
  else gensvm_predict_labels_kernel data_test data_train model predy.

End predict.
End Rev1.

(** gensvm_predict_labels_linear of the first revision once more, and
    gensvm_predict_labels of the later revision (which has no kernel path
    and starts [min_dist] from the macro [INFINITY]), on the doubles of the
    machine.  Nothing is fixed about these doubles: their type, the
    subtraction and the comparison [<], the doubles that the literals of
    the source and [INFINITY] stand for, and the calls into the simplex
    generator and the BLAS are parameters, so that rounding, overflow and
    NaN are whatever the machine makes of them. *)
Module Machine.
Section predict.
Context {double : Type}.
(** The double a literal of the source stands for ([0.0] is also what
    [Calloc] leaves), [a - b], [a < b] and [INFINITY]. *)
Context (double_of : R -> double).
Context (dsub : double -> double -> double).
Context (dlt : double -> double -> bool).
Context (INFINITY : double).
(** [gensvm_simplex_gen(K, U)]: the contents of [U] afterwards. *)
Context (gensvm_simplex_gen : Z -> list double -> list double).
(** [cblas_dgemm(CblasRowMajor, CblasNoTrans, CblasNoTrans, M, N, K, alpha,
    A, lda, B, ldb, beta, C, ldc)]: the contents of [C] afterwards; [A] and
    [B] are the arrays of the data set and of the model. *)
Context (cblas_dgemm : Z -> Z -> Z -> R -> list R -> Z -> list R -> Z -> R ->
                       list double -> Z -> list double).
(** [cblas_dnrm2(N, X, 1)] *)
Context (cblas_dnrm2 : Z -> list double -> double).
(** What a read outside an array finds. *)
Context (beyond : double).

(** The macro [matrix_get(M, cols, i, j)] on an array of doubles. *)
Definition matrix_get (M : list double) (cols i j : Z) : double :=
  aget beyond M (i * cols + j).

(** The loop over [k] that fills the scratch vector [S]. *)
Definition fill_S (K : Z) (ZV U : list double) (i j : Z) (Sv : list double)
    : list double :=
  for_loop 0 (K - 1) (fun k Sv =>
    aset Sv k (dsub (matrix_get ZV (K - 1) i k) (matrix_get U (K - 1) j k)))
    Sv.

(** The two inner loops of gensvm_predict_labels_linear for instance [i]:
    the state is [label], [min_dist] and the scratch vector [S]. *)
Definition nearest_linear (K : Z) (ZV U : list double) (i : Z)
    (Sv : list double) : Z * double * list double :=
  for_loop 0 K (fun j '(label, min_dist, Sv) =>
    let Sv := fill_S K ZV U i j Sv in
    let norm := cblas_dnrm2 (K - 1) Sv in
    if dlt norm min_dist then (j + 1, norm, Sv) else (label, min_dist, Sv))
    (0, double_of 1000000000, Sv).

(** gensvm_predict_labels_linear *)
Definition gensvm_predict_labels_linear (data : GenData) (model : GenModel)
    (predy : list Z) : list Z :=
  let n := data_n data in
  let m := data_m data in
  let K := model_K model in
  let Sv := replicate (Z.to_nat (K - 1)) (double_of 0) in
  let ZV := replicate (Z.to_nat (n * (K - 1))) (double_of 0) in
  let U := replicate (Z.to_nat (K * (K - 1))) (double_of 0) in
  let U := gensvm_simplex_gen K U in
  let ZV := cblas_dgemm n (K - 1) (m + 1) 1 (data_Z data) (m + 1)
              (model_V model) (K - 1) 0 ZV (K - 1) in
  fst (for_loop 0 n (fun i '(predy, Sv) =>
    let '(label, _, Sv) := nearest_linear K ZV U i Sv in
    (aset predy i label, Sv)) (predy, Sv)).

(** The two inner loops of the later gensvm_predict_labels. *)
Definition nearest (K : Z) (ZV U : list double) (i : Z) (Sv : list double)
    : Z * double * list double :=
  for_loop 0 K (fun j '(label, min_dist, Sv) =>
    let Sv := fill_S K ZV U i j Sv in
    let norm := cblas_dnrm2 (K - 1) Sv in
    if dlt norm min_dist then (j + 1, norm, Sv) else (label, min_dist, Sv))
    (0, INFINITY, Sv).

(** gensvm_predict_labels of the later revision *)
Definition gensvm_predict_labels (testdata : GenData) (model : GenModel)
    (predy : list Z) : list Z :=
  let n := data_n testdata in
  let m := data_r testdata in
  let K := model_K model in
  let Sv := replicate (Z.to_nat (K - 1)) (double_of 0) in
  let ZV := replicate (Z.to_nat (n * (K - 1))) (double_of 0) in
  let U := replicate (Z.to_nat (K * (K - 1))) (double_of 0) in
  let U := gensvm_simplex_gen K U in
  let ZV := cblas_dgemm n (K - 1) (m + 1) 1 (data_Z testdata) (m + 1)
              (model_V model) (K - 1) 0 ZV (K - 1) in
  fst (for_loop 0 n (fun i '(predy, Sv) =>
    let '(label, _, Sv) := nearest K ZV U i Sv in
    (aset predy i label, Sv)) (predy, Sv)).



End predict.
End Machine.

(** ** gensvm_task.c *)

(** [struct GenTask]; the data sets are pointers into the table of data
    sets shared by all tasks. *)
Record GenTask : Type := {
  task_kerneltype : KernelType;
  task_weight_idx : Z;
  task_folds : Z;
  task_ID : Z;
  task_p : R;
  task_kappa : R;
  task_lambda : R;
  task_epsilon : R;
  task_kernelparam : ptr;
  task_train_data : ptr;
  task_test_data : ptr;
  task_performance : R
}.

(** The memory the task functions work on: the blocks of doubles, the
    task structures and the data sets. *)
Record memory : Type := {
  mem_doubles : gmap loc (list R);
  mem_tasks : gmap loc GenTask;
  mem_data : gmap loc GenData
}.

(** gensvm_init_task: a new task structure holding the defaults *)
Definition gensvm_init_task (mem : memory) : loc * memory :=
  let t := fresh (dom (mem_tasks mem)) in
  let defaults :=
    {| task_kerneltype := K_LINEAR; task_weight_idx := 1; task_folds := 10;
       task_ID := -1; task_p := 1; task_kappa := 0; task_lambda := 1;
       task_epsilon := (1 / 1000000)%R; task_kernelparam := None;
       task_train_data := None; task_test_data := None;
       task_performance := 0 |} in
  (t, {| mem_doubles := mem_doubles mem;
         mem_tasks := <[t := defaults]> (mem_tasks mem);
         mem_data := mem_data mem |}).

(** The chain of [if]s of gensvm_copy_task on the kernel type: the
    parameter array of the copy.  [Malloc] leaves its block unset until the
    assignments that follow. *)
Definition copy_kernelparam (uninit : R) (h : gmap loc (list R))
    (t : GenTask) : ptr * gmap loc (list R) :=
  let tp := task_kernelparam t in
  match task_kerneltype t with
  | K_LINEAR => (None, h)
  | K_RBF =>
      let '(l, h) := alloc h (replicate 1 uninit) in
      let h := store h (Some l) 0 (deref h tp).[0] in
      (Some l, h)
  | K_POLY =>
      let '(l, h) := alloc h (replicate 3 uninit) in
      let h := store h (Some l) 0 (deref h tp).[0] in
      let h := store h (Some l) 1 (deref h tp).[1] in
      let h := store h (Some l) 2 (deref h tp).[2] in
      (Some l, h)
  | K_SIGMOID =>
      let '(l, h) := alloc h (replicate 2 uninit) in
      let h := store h (Some l) 0 (deref h tp).[0] in
      let h := store h (Some l) 1 (deref h tp).[1] in
      (Some l, h)
  end.

(** gensvm_copy_task; [t] is the structure the argument points to, the
    result the pointer to the new structure.  The assignments
    [nt->field = t->field] overwrite every default gensvm_init_task had
    set. *)
Definition gensvm_copy_task (uninit : R) (mem : memory) (t : GenTask)
    : loc * memory :=
  let '(nt, mem) := gensvm_init_task mem in
  let '(kernelparam, h) := copy_kernelparam uninit (mem_doubles mem) t in
  let assign (old : GenTask) : GenTask :=
    {| task_weight_idx := task_weight_idx t;
       task_folds := task_folds t;
       task_ID := task_ID t;
       task_p := task_p t;
       task_kappa := task_kappa t;
       task_lambda := task_lambda t;
       task_epsilon := task_epsilon t;
       task_train_data := task_train_data t;
       task_test_data := task_test_data t;
       task_performance := task_performance t;
       task_kerneltype := task_kerneltype t;
       task_kernelparam := kernelparam |} in
  (nt, {| mem_doubles := h;
          mem_tasks := alter assign nt (mem_tasks mem);
          mem_data := mem_data mem |}).

(** ** gensvm_task.c: gensvm_free_task and gensvm_task_to_model *)

(** gensvm_free_task: [free(t->kernelparam); free(t);].  The data sets are
    not freed.  A pointer [t] that leads to no task structure is outside
    what C defines; the memory is then returned as it is. *)
Definition gensvm_free_task (mem : memory) (t : loc) : memory :=
  match mem_tasks mem !! t with
  | Some task =>
      {| mem_doubles := free (mem_doubles mem) (task_kernelparam task);
         mem_tasks := delete t (mem_tasks mem);
         mem_data := mem_data mem |}
  | None => mem
  end.

(** gensvm_task_to_model.  Its chain of [if]s on the kernel type is the one
    of gensvm_copy_task, with [model] in the place of [nt]; the array the
    model pointed to before is not freed. *)
Definition gensvm_task_to_model (uninit : R) (h : gmap loc (list R))
    (task : GenTask) (model : GenModel) : gmap loc (list R) * GenModel :=
  let '(kernelparam, h) := copy_kernelparam uninit h task in
  (h, {| model_weight_idx := task_weight_idx task;
         model_K := model_K model; model_n := model_n model;
         model_m := model_m model;
         model_epsilon := task_epsilon task; model_p := task_p task;
         model_kappa := task_kappa task; model_lambda := task_lambda task;
         model_W := model_W model; model_t := model_t model;
         model_V := model_V model; model_Vbar := model_Vbar model;
         model_U := model_U model; model_UU := model_UU model;
         model_Q := model_Q model; model_H := model_H model;
         model_R := model_R model; model_rho := model_rho model;
         model_training_error := model_training_error model;
         model_data_file := model_data_file model;
         model_kerneltype := task_kerneltype task;
         model_kernelparam := kernelparam;
         model_use_cholesky := model_use_cholesky model |}).

(** The parameters a model is fitted with: the five scalars, the kernel
    type and the contents of the kernel parameter array. *)
Definition fit_parameters (h : gmap loc (list R)) (model : GenModel)
    : Z * R * R * R * R * KernelType * list R :=
  (model_weight_idx model, model_epsilon model, model_p model,
   model_kappa model, model_lambda model, model_kerneltype model,
   deref h (model_kernelparam model)).

(** ** util.c: msvmmaj_read_data *)

(** The data file once opened: the two dimensions the first two
    [fscanf("%ld")] calls read, then the rest of the text as lines of
    numbers, the first of them being what is left of the line the
    dimensions stand on. *)
Record datafile : Type := {
  file_n : Z;
  file_m : Z;
  file_lines : list (list R)
}.

(** [fscanf(fid, "%lf", &value)] skips white space and line ends; at the
    end of the file nothing is read. *)
Fixpoint fscanf_lf (lines : list (list R)) : option (R * list (list R)) :=
  match lines with
  | [] => None
  | [] :: rest => fscanf_lf rest
  | (v :: cur) :: rest => Some (v, cur :: rest)
  end.

(** The position in the file with the locals [nr] and [value]. *)
Record reader : Type := {
  rd_lines : list (list R);
  rd_nr : Z;
  rd_value : R
}.

(** [nr += fscanf(fid, "%lf", &value)]: one on success, [EOF] (-1) at the
    end of the file, where [value] keeps its contents. *)
Definition fscanf_value (rd : reader) : reader :=
  match fscanf_lf (rd_lines rd) with
  | Some (v, lines) =>
      {| rd_lines := lines; rd_nr := rd_nr rd + 1; rd_value := v |}
  | None =>
      {| rd_lines := []; rd_nr := rd_nr rd - 1; rd_value := rd_value rd |}
  end.

(** The macros [maximum(a, b)] and [minimum(a, b)] come from a header
    that is not among the sources; they are taken as the larger and the
    smaller of two doubles. *)
Definition maximum (a b : R) : R := if Rgt_dec a b then a else b.
Definition minimum (a b : R) : R := if Rlt_dec a b then a else b.

(** The loop over [j] that reads the [m] features of row [i] into the
    matrix with row length [cols]. *)
Definition read_row (m cols i : Z) (rd : reader) (Zm : list R)
    : reader * list R :=
  for_loop 1 (m + 1) (fun j '(rd, Zm) =>
    let rd := fscanf_value rd in
    (rd, matrix_set Zm cols i j (rd_value rd))) (rd, Zm).

Section read_data.
(** What storage holds before it is first written. *)
Context (uninit : R) (uninit_long : Z).

(** msvmmaj_read_data; [data_file] is [None] when the file cannot be
    opened.  [nr] is 2 after the two dimensions are read.  [buf] is the
    line [fgets] returns, with a label on it when [sscanf] finds a number;
    without one, [dataset->y] is [NULL] afterwards, whether it was before
    or is freed. *)
Definition msvmmaj_read_data (dataset : MajData)
    (data_file : option datafile) : outcome MajData :=
  match data_file with
  | None => Exit 0
  | Some fid =>
    let n := file_n fid in
    let m := file_m fid in
    let rd := {| rd_lines := file_lines fid; rd_nr := 2;
                 rd_value := uninit |} in
    let Zm := replicate (Z.to_nat (n * (m + 1))) uninit in
    let '(rd, Zm) := read_row m n 0 rd Zm in
    match rd_lines rd with
    | [] => Exit 1
    | buf :: lines =>
      let '(y, value) :=
        match buf with
        | v :: _ =>
            (Some (aset (replicate (Z.to_nat n) uninit_long) 0
                     (long_of_double v)), v)
        | [] => (None, rd_value rd)
        end in
      let rd := {| rd_lines := lines; rd_nr := rd_nr rd;
                   rd_value := value |} in
      let '(rd, Zm, y, K, min_y) :=
        for_loop 1 n (fun i '(rd, Zm, y, K, min_y) =>
          let '(rd, Zm) := read_row m (m + 1) i rd Zm in
          match y with
          | Some yv =>
              let rd := fscanf_value rd in
              let value := rd_value rd in
              (rd, Zm, Some (aset yv i (long_of_double value)),
               long_of_double (maximum (IZR K) value),
               long_of_double (minimum (IZR min_y) value))
          | None => (rd, Zm, y, K, min_y)
          end) (rd, Zm, y, 0, 1000) in
      '(y, K) ←
        (if decide (min_y = 0) then
           Ret ((fun yv => for_loop 0 n (fun i yv =>
                   aset yv i (aget 0 yv i + 1)) yv) <$> y, K + 1)
         else if decide (min_y < 0) then Exit 0
         else Ret (y, K));
      if decide (rd_nr rd < n * m) then Exit 0
      else
        let Zm := for_loop 0 n (fun i Zm =>
          matrix_set Zm (m + 1) i 0 1%R) Zm in
        Ret {| data_K := K; data_n := n; data_m := m;
               data_r := data_r dataset; data_y := y; data_Z := Zm;
               data_RAW := data_RAW dataset; data_J := data_J dataset;
               data_kerneltype := data_kerneltype dataset;
               data_kernelparam := data_kernelparam dataset;
               data_use_cholesky := data_use_cholesky dataset |}
    end
  end.

End read_data.

(** ** util.c: msvmmaj_check_argv and msvmmaj_check_argv_eq *)

(** Whether [hay] begins with [needle]. *)
Fixpoint starts_with (needle hay : string) : bool :=
  match needle, hay with
  | EmptyString, _ => true
  | String a needle', String b hay' =>
      if Ascii.eqb a b then starts_with needle' hay' else false
  | String _ _, EmptyString => false
  end.

(** [strstr(hay, needle) != NULL]: [needle] occurs in [hay] at some
    position. *)
Fixpoint strstr_found (hay needle : string) : bool :=
  starts_with needle hay ||
  match hay with
  | EmptyString => false
  | String _ hay' => strstr_found hay' needle
  end.

(** msvmmaj_check_argv; the state of the loop is [arg_str] and whether
    [break] has been reached. *)
Definition msvmmaj_check_argv (argc : Z) (argv : list string) (str : string)
    : Z :=
  fst (for_loop 1 argc (fun i '(arg_str, broken) =>
    if (broken : bool) then (arg_str, broken)
    else if strstr_found (aget EmptyString argv i) str then (i, true)
    else (arg_str, broken)) (0, false)).

(** msvmmaj_check_argv_eq; [strcmp(argv[i], str) == 0] is equality. *)
Definition msvmmaj_check_argv_eq (argc : Z) (argv : list string)
    (str : string) : Z :=
  fst (for_loop 1 argc (fun i '(arg_str, broken) =>
    if (broken : bool) then (arg_str, broken)
    else if String.eqb (aget EmptyString argv i) str then (i, true)
    else (arg_str, broken)) (0, false)).

(** [needle] occurs in [hay]: [hay] is some text, [needle], some text. *)
Definition occurs_in (needle hay : string) : Prop :=
  exists before after, hay = (before ++ needle ++ after)%string.

(** ** msvmmaj_init.c: msvmmaj_reallocate_model *)

Section reallocate.
(** Whether the allocator can serve a request of that many bytes. *)
Context (can_alloc : Z -> bool).
Context (uninit : R).

(** [p = realloc(p, count*sizeof(double)); if (p == NULL) exit(1);] *)
Definition realloc_or_exit (a : list R) (count : Z) : outcome (list R) :=
  if can_alloc (count * 8) then Ret (resize (Z.to_nat count) uninit a)
  else Exit 1.

(** The branch [if (model->n != n)] *)
Definition reallocate_n (model : MajModel) (n : Z) : outcome MajModel :=
  let K := model_K model in
  UU ← realloc_or_exit (model_UU model) (n * K * (K - 1));
  Q ← realloc_or_exit (model_Q model) (n * K);
  H ← realloc_or_exit (model_H model) (n * K);
  Rm ← realloc_or_exit (model_R model) (n * K);
  rho ← realloc_or_exit (model_rho model) n;
  Ret {| model_weight_idx := model_weight_idx model; model_K := model_K model;
         model_n := n; model_m := model_m model;
         model_epsilon := model_epsilon model; model_p := model_p model;
         model_kappa := model_kappa model; model_lambda := model_lambda model;
         model_W := model_W model; model_t := model_t model;
         model_V := model_V model; model_Vbar := model_Vbar model;
         model_U := model_U model; model_UU := UU;
         model_Q := Q; model_H := H;
         model_R := Rm; model_rho := rho;
         model_training_error := model_training_error model;
         model_data_file := model_data_file model;
         model_kerneltype := model_kerneltype model;
         model_kernelparam := model_kernelparam model;
         model_use_cholesky := model_use_cholesky model |}.

(** The branch [if (model->m != m)] *)
Definition reallocate_m (model : MajModel) (m : Z) : outcome MajModel :=
  let K := model_K model in
  W ← realloc_or_exit (model_W model) (m * (K - 1));
  V ← realloc_or_exit (model_V model) ((m + 1) * (K - 1));
  Vbar ← realloc_or_exit (model_Vbar model) ((m + 1) * (K - 1));
  Ret {| model_weight_idx := model_weight_idx model; model_K := model_K model;
         model_n := model_n model; model_m := m;
         model_epsilon := model_epsilon model; model_p := model_p model;
         model_kappa := model_kappa model; model_lambda := model_lambda model;
         model_W := W; model_t := model_t model;
         model_V := V; model_Vbar := Vbar;
         model_U := model_U model; model_UU := model_UU model;
         model_Q := model_Q model; model_H := model_H model;
         model_R := model_R model; model_rho := model_rho model;
         model_training_error := model_training_error model;
         model_data_file := model_data_file model;
         model_kerneltype := model_kerneltype model;
         model_kernelparam := model_kernelparam model;
         model_use_cholesky := model_use_cholesky model |}.

(** msvmmaj_reallocate_model *)
Definition msvmmaj_reallocate_model (model : MajModel) (n m : Z)
    : outcome MajModel :=
  if decide (model_n model = n ∧ model_m model = m) then Ret model
  else
    model ← (if decide (model_n model ≠ n) then reallocate_n model n
             else Ret model);
    if decide (model_m model ≠ m) then reallocate_m model m
    else Ret model.

End reallocate.

(** ** msvmmaj_init.c (and util.c): msvmmaj_allocate_model *)

Section allocate.
(** Whether the allocator can serve a request of that many bytes. *)
Context (can_alloc : Z -> bool).

(** [p = Calloc(double, count); if (p == NULL) exit(1);] *)
Definition calloc_or_exit (count : Z) : outcome (list R) :=
  if can_alloc (count * 8) then Ret (replicate (Z.to_nat count) 0%R)
  else Exit 1.

(** msvmmaj_allocate_model *)
Definition msvmmaj_allocate_model (model : MajModel) : outcome MajModel :=
  let n := model_n model in
  let m := model_m model in
  let K := model_K model in
  W ← calloc_or_exit (m * (K - 1));
  t ← calloc_or_exit (K - 1);
  V ← calloc_or_exit ((m + 1) * (K - 1));
  Vbar ← calloc_or_exit ((m + 1) * (K - 1));
  U ← calloc_or_exit (K * (K - 1));
  UU ← calloc_or_exit (n * K * (K - 1));
  Q ← calloc_or_exit (n * K);
  H ← calloc_or_exit (n * K);
  Rm ← calloc_or_exit (n * K);
  rho ← calloc_or_exit n;
  Ret {| model_weight_idx := model_weight_idx model; model_K := model_K model;
         model_n := model_n model; model_m := model_m model;
         model_epsilon := model_epsilon model; model_p := model_p model;
         model_kappa := model_kappa model; model_lambda := model_lambda model;
         model_W := W; model_t := t; model_V := V; model_Vbar := Vbar;
         model_U := U; model_UU := UU; model_Q := Q; model_H := H;
         model_R := Rm; model_rho := rho;
         model_training_error := model_training_error model;
         model_data_file := model_data_file model;
         model_kerneltype := model_kerneltype model;
         model_kernelparam := model_kernelparam model;
         model_use_cholesky := model_use_cholesky model |}.

End allocate.

(** The arrays of a model have the sizes its K, n and m call for. *)
Definition model_sized (model : GenModel) : Prop :=
  let n := model_n model in
  let m := model_m model in
  let K := model_K model in
  length (model_W model) = Z.to_nat (m * (K - 1)) ∧
  length (model_t model) = Z.to_nat (K - 1) ∧
  length (model_V model) = Z.to_nat ((m + 1) * (K - 1)) ∧
  length (model_Vbar model) = Z.to_nat ((m + 1) * (K - 1)) ∧
  length (model_U model) = Z.to_nat (K * (K - 1)) ∧
  length (model_UU model) = Z.to_nat (n * K * (K - 1)) ∧
  length (model_Q model) = Z.to_nat (n * K) ∧
  length (model_H model) = Z.to_nat (n * K) ∧
  length (model_R model) = Z.to_nat (n * K) ∧
  length (model_rho model) = Z.to_nat n.

(** Every cell of an array is zero. *)
Definition all_zero (a : list R) : Prop := Forall (fun x => x = 0%R) a.

(** Array [a'] holds what [a] holds on the cells both have. *)
Definition prefix_kept (a a' : list R) : Prop :=
  forall p : nat, (p < length a)%nat -> (p < length a')%nat ->
    a' !! p = a !! p.

(** ** Reference notions the properties are stated with *)

(** The lines of a data file behind its two dimensions when every
    instance stands on a line of its own: nothing is left of the line of
    the dimensions, then each line holds the features of an instance and,
    in a labeled file, its label. *)
Definition labeled_lines (rows : list (list R * Z)) : list (list R) :=
  [] :: ((fun row => row.1 ++ [IZR row.2]) <$> rows).

Definition unlabeled_lines (rows : list (list R)) : list (list R) :=
  [] :: rows.

(** The number of positions at which two label vectors agree. *)
Definition hits (y predy : list Z) : Z :=
  Z.of_nat (length (filter (fun p => p.1 = p.2) (zip y predy))).

(** The squared Euclidean distance of the first [m] coordinates of two
    vectors, and their inner product, as sums over the coordinates. *)
Definition sq_dist (x1 x2 : list R) (m : Z) : R :=
  foldr Rplus 0%R
    ((fun k => (x1.[k] - x2.[k]) * (x1.[k] - x2.[k]))%R <$> seqZ 0 m).

Definition inner_product (x1 x2 : list R) (m : Z) : R :=
  foldr Rplus 0%R ((fun k => x1.[k] * x2.[k])%R <$> seqZ 0 m).

(** Row [i] of the raw features: the [data->m] doubles behind the bias
    column in row [i] of [data->Z]. *)
Definition feature_row (data : GenData) (i : Z) : list R :=
  offset (data_Z data) (i * (data_m data + 1) + 1).

(** A point of the line at least 1e10 to the right of the first two
    entries of [U]: beyond the sentinels of both prediction paths. *)
Definition far_point (U : list R) : R :=
  (10000000000 + Rabs U.[0] + Rabs U.[1])%R.

(** The numbers of doubles msvmmaj_allocate_model asks for, in the order
    of its ten [Calloc] calls. *)
Definition allocate_requests (model : GenModel) : list Z :=
  let n := model_n model in
  let m := model_m model in
  let K := model_K model in
  [m * (K - 1); K - 1; (m + 1) * (K - 1); (m + 1) * (K - 1); K * (K - 1);
   n * K * (K - 1); n * K; n * K; n * K; n].

(** The fields of a model that do not depend on the number of instances:
    the weights W, t, V, Vbar, the simplex matrix U, and every scalar and
    kernel field apart from [n]. *)
Definition same_weights_and_parameters (a b : GenModel) : Prop :=
  model_W a = model_W b ∧ model_t a = model_t b ∧ model_V a = model_V b ∧
  model_Vbar a = model_Vbar b ∧ model_U a = model_U b ∧
  model_weight_idx a = model_weight_idx b ∧ model_K a = model_K b ∧
  model_m a = model_m b ∧ model_epsilon a = model_epsilon b ∧
  model_p a = model_p b ∧ model_kappa a = model_kappa b ∧
  model_lambda a = model_lambda b ∧
  model_training_error a = model_training_error b ∧
  model_data_file a = model_data_file b ∧
  model_kerneltype a = model_kerneltype b ∧
  model_kernelparam a = model_kernelparam b ∧
  model_use_cholesky a = model_use_cholesky b.

(** The number of doubles in the parameter array of a kernel type. *)
Definition kernelparam_count (kerneltype : KernelType) : nat :=
  match kerneltype with
  | K_LINEAR => 0
  | K_POLY => 3
  | K_RBF => 1
  | K_SIGMOID => 2
  end.

(** A kernel descriptor is well formed in a heap when, for a kernel that
    is not linear, its pointer leads to a live block of as many doubles as
    the kernel type has parameters. *)
Definition kernelparam_ok (h : gmap loc (list R)) (kerneltype : KernelType)
    (p : ptr) : Prop :=
  kerneltype = K_LINEAR ∨
  exists l a, p = Some l ∧ h !! l = Some a ∧
    length a = kernelparam_count kerneltype.

(** ** Concrete inputs of the examples *)

(** A model for K = 2 classes, n = 1 instance, m = 1 feature. *)
Definition small_model (kerneltype : KernelType) (kernelparam : ptr)
    (V : list R) : GenModel :=
  {| model_weight_idx := 1; model_K := 2; model_n := 1; model_m := 1;
     model_epsilon := (1 / 1000000)%R; model_p := 1; model_kappa := 0;
     model_lambda := 1; model_W := [0%R]; model_t := [0%R];
     model_V := V; model_Vbar := [0%R; 0%R];
     model_U := [(- (1 / 2))%R; (1 / 2)%R]; model_UU := [0%R; 0%R];
     model_Q := [0%R; 0%R]; model_H := [0%R; 0%R]; model_R := [0%R; 0%R];
     model_rho := [1%R]; model_training_error := 0; model_data_file := "";
     model_kerneltype := kerneltype; model_kernelparam := kernelparam;
     model_use_cholesky := false |}.

(** A data set of one instance with the single feature [x]. *)
Definition small_data (x : R) : GenData :=
  {| data_K := 2; data_n := 1; data_m := 1; data_r := 1;
     data_y := Some [1]; data_Z := [1%R; x]; data_RAW := [1%R; x];
     data_J := [0%R; 1%R]; data_kerneltype := K_LINEAR;
     data_kernelparam := None; data_use_cholesky := false |}.

(** A model for K = 2 classes, n = 2 instances, m = 1 feature, and a data
    set of two instances with the single features [a] and [b]. *)
Definition pair_model (kerneltype : KernelType) (kernelparam : ptr)
    : GenModel :=
  {| model_weight_idx := 1; model_K := 2; model_n := 2; model_m := 1;
     model_epsilon := (1 / 1000000)%R; model_p := 1; model_kappa := 0;
     model_lambda := 1; model_W := [0%R]; model_t := [0%R];
     model_V := [0%R; 0%R]; model_Vbar := [0%R; 0%R];
     model_U := [(- (1 / 2))%R; (1 / 2)%R];
     model_UU := [0%R; 0%R; 0%R; 0%R]; model_Q := [0%R; 0%R; 0%R; 0%R];
     model_H := [0%R; 0%R; 0%R; 0%R]; model_R := [0%R; 0%R; 0%R; 0%R];
     model_rho := [1%R; 1%R]; model_training_error := 0;
     model_data_file := ""; model_kerneltype := kerneltype;
     model_kernelparam := kernelparam; model_use_cholesky := false |}.

Definition pair_data (a b : R) : GenData :=
  {| data_K := 2; data_n := 2; data_m := 1; data_r := 1;
     data_y := Some [1; 2]; data_Z := [1%R; a; 1%R; b];
     data_RAW := [1%R; a; 1%R; b]; data_J := [0%R; 1%R];
     data_kerneltype := K_LINEAR; data_kernelparam := None;
     data_use_cholesky := false |}.






(** A memory with one parameter block at address 1 holding [params] and
    one data set at address 1. *)
Definition small_memory (params : list R) : memory :=
  {| mem_doubles := {[ 1%positive := params ]};
     mem_tasks := ∅;
     mem_data := {[ 1%positive := small_data 0 ]} |}.

(** A task with the parameter block and the data set of [small_memory]. *)
Definition small_task (kerneltype : KernelType) : GenTask :=
  {| task_kerneltype := kerneltype; task_weight_idx := 2; task_folds := 5;
     task_ID := 7; task_p := 2; task_kappa := 1; task_lambda := (1 / 2)%R;
     task_epsilon := (1 / 1000)%R; task_kernelparam := Some 1%positive;
     task_train_data := Some 1%positive; task_test_data := None;
     task_performance := 50 |}.

(** * Properties *)

(** ** Counted loops *)

Lemma for_loop_nil {St : Type} (lo hi : Z) (body : Z -> St -> St) (s : St) :
  hi <= lo -> for_loop lo hi body s = s.
Proof. intros Hle. unfold for_loop. by rewrite seqZ_nil by lia. Qed.

Lemma for_loop_first {St : Type} (lo hi : Z) (body : Z -> St -> St) (s : St) :
  lo < hi -> for_loop lo hi body s = for_loop (lo + 1) hi body (body lo s).
Proof.
  intros Hlt. unfold for_loop. rewrite seqZ_cons by lia. simpl.
  replace (Z.succ lo) with (lo + 1) by lia.
  replace (Z.pred (hi - lo)) with (hi - (lo + 1)) by lia. done.
Qed.

Lemma for_loop_last {St : Type} (lo hi : Z) (body : Z -> St -> St) (s : St) :
  lo <= hi -> for_loop lo (hi + 1) body s = body hi (for_loop lo hi body s).
Proof.
  intros Hle. unfold for_loop.
  replace (hi + 1 - lo) with ((hi - lo) + 1) by lia.
  rewrite seqZ_app by lia. rewrite foldl_app.
  rewrite (seqZ_cons _ 1) by lia. rewrite (seqZ_nil _ (Z.pred 1)) by lia.
  simpl. f_equal; lia.
Qed.

(** The invariant rule: [P lo] holds on entry and every iteration takes
    [P i] to [P (i+1)]. *)
Lemma for_loop_inv {St : Type} (P : Z -> St -> Prop) (lo hi : Z)
    (body : Z -> St -> St) (s : St) :
  lo <= hi ->
  P lo s ->
  (forall i s, lo <= i < hi -> P i s -> P (i + 1) (body i s)) ->
  P hi (for_loop lo hi body s).
Proof.
  intros Hle H0 Hstep.
  assert (Hgen : forall k : nat, lo + Z.of_nat k <= hi ->
            P (lo + Z.of_nat k) (for_loop lo (lo + Z.of_nat k) body s)).
  { induction k as [|k IH]; intros Hk.
    - rewrite Z.add_0_r. by rewrite for_loop_nil by lia.
    - replace (lo + Z.of_nat (S k)) with (lo + Z.of_nat k + 1) by lia.
      rewrite for_loop_last by lia. apply Hstep; [lia|]. apply IH. lia. }
  specialize (Hgen (Z.to_nat (hi - lo))).
  replace (lo + Z.of_nat (Z.to_nat (hi - lo))) with hi in Hgen by lia.
  apply Hgen. lia.
Qed.

(** Two loops with bodies that agree on the range compute the same. *)
Lemma for_loop_ext {St : Type} (lo hi : Z) (f g : Z -> St -> St) (s : St) :
  (forall i s, lo <= i < hi -> f i s = g i s) ->
  for_loop lo hi f s = for_loop lo hi g s.
Proof.
  intros Hfg. destruct (decide (lo <= hi)) as [Hle|Hgt].
  - apply (for_loop_inv (fun i acc => for_loop lo i f s = acc)); [done| |].
    + by rewrite for_loop_nil by lia.
    + intros i acc Hi <-. rewrite for_loop_last by lia. apply Hfg. lia.
  - by rewrite !for_loop_nil by lia.
Qed.

(** ** Outcomes *)

Lemma bind_Ret {A B : Type} (a : A) (k : A -> outcome B) : Ret a ≫= k = k a.
Proof. reflexivity. Qed.

Lemma bind_Exit {A B : Type} (status : Z) (k : A -> outcome B) :
  Exit status ≫= k = Exit status.
Proof. reflexivity. Qed.

Ltac outcome_simpl := repeat (rewrite bind_Ret || rewrite bind_Exit).

(** ** Arrays *)

Lemma length_aset {A : Type} (a : list A) (i : Z) (v : A) :
  length (aset a i v) = length a.
Proof. unfold aset. case_decide; [apply length_insert|done]. Qed.

Lemma aget_aset_eq {A : Type} (d : A) (a : list A) (i : Z) (v : A) :
  0 <= i < Z.of_nat (length a) -> aget d (aset a i v) i = v.
Proof.
  intros [H0 Hlt]. unfold aget, aset. rewrite !decide_True by done.
  rewrite list_lookup_insert_eq by lia. done.
Qed.

Lemma aget_aset_ne {A : Type} (d : A) (a : list A) (i j : Z) (v : A) :
  i ≠ j -> aget d (aset a i v) j = aget d a j.
Proof.
  intros Hne. unfold aget, aset.
  destruct (decide (0 <= i)); [|done].
  destruct (decide (0 <= j)); [|done].
  rewrite list_lookup_insert_ne by lia. done.
Qed.

Lemma aget_lookup {A : Type} (d : A) (a : list A) (i : Z) (x : A) :
  0 <= i -> a !! Z.to_nat i = Some x -> aget d a i = x.
Proof. intros Hi Hx. unfold aget. rewrite decide_True by done. by rewrite Hx. Qed.

Lemma aget_replicate {A : Type} (d : A) (k : nat) (i : Z) :
  aget d (replicate k d) i = d.
Proof.
  unfold aget. case_decide; [|done].
  destruct (replicate k d !! Z.to_nat i) as [x|] eqn:E; [|done].
  apply lookup_replicate in E as [-> _]. done.
Qed.

(** ** msvmmaj_make_kernel on a linear kernel *)

Section make_kernel_facts.
Context (dpotrf : Z -> list R -> Z * list R) (uninit : R).

(** C6. With a linear kernel descriptor msvmmaj_make_kernel returns at
    once: the heap, every field of the model and every field of the data
    (Z, m, kerneltype, kernelparam included) are what they were. *)
Theorem make_kernel_linear_unchanged (h : gmap loc (list R))
    (model : MajModel) (data : MajData) :
  model_kerneltype model = K_LINEAR ->
  msvmmaj_make_kernel dpotrf uninit h model data = Ret (h, model, data).
Proof.
  intros Hlin. unfold msvmmaj_make_kernel. by rewrite decide_True.
Qed.

End make_kernel_facts.

Lemma make_kernel_linear_unchanged_witness :
  let h : gmap loc (list R) := {[ 1%positive := [1%R] ]} in
  let model := small_model K_LINEAR None [0%R; 0%R] in
  msvmmaj_make_kernel (fun _ K => (0, K)) 0%R h model (small_data 3)
  = Ret (h, model, small_data 3).
Proof.
  intros h model.
  exact (make_kernel_linear_unchanged (fun _ K => (0, K)) 0%R h model
           (small_data 3) eq_refl).
Defined.

(** ** gensvm_prediction_perf *)

Lemma hits_snoc (y predy : list Z) (a b : Z) :
  length y = length predy ->
  hits (y ++ [a]) (predy ++ [b]) =
    hits y predy + (if decide (a = b) then 1 else 0).
Proof.
  intros Hlen. unfold hits.
  rewrite zip_with_app by done. rewrite filter_app, length_app. simpl.
  rewrite filter_cons, filter_nil. simpl.
  case_decide; simpl; lia.
Qed.

(** The counting loop stops at [hits]. *)
Lemma perf_loop_hits (y predy : list Z) (n : Z) :
  Z.of_nat (length y) = n -> Z.of_nat (length predy) = n ->
  for_loop 0 n (fun i correct =>
    if decide (aget 0 y i = aget 0 predy i) then correct + 1 else correct) 0
  = hits y predy.
Proof.
  intros Hy Hp.
  set (body := fun (i : Z) (correct : Z) =>
    if decide (aget 0 y i = aget 0 predy i) then correct + 1 else correct).
  assert (Hinv : for_loop 0 n body 0 =
            hits (take (Z.to_nat n) y) (take (Z.to_nat n) predy)).
  { apply (for_loop_inv (fun i acc =>
      acc = hits (take (Z.to_nat i) y) (take (Z.to_nat i) predy))); [lia|done|].
    intros i acc Hi ->.
    destruct (lookup_lt_is_Some_2 y (Z.to_nat i)) as [a Ha]; [lia|].
    destruct (lookup_lt_is_Some_2 predy (Z.to_nat i)) as [b Hb]; [lia|].
    replace (Z.to_nat (i + 1)) with (S (Z.to_nat i)) by lia.
    rewrite (take_S_r y _ a) by done. rewrite (take_S_r predy _ b) by done.
    rewrite hits_snoc by (rewrite !length_take; lia).
    unfold body. rewrite (aget_lookup 0 y i a), (aget_lookup 0 predy i b)
      by (done || lia).
    case_decide; lia. }
  rewrite Hinv. rewrite !firstn_all2 by lia. done.
Qed.

(** C3, as stated, fails: on one instance with a matching prediction the
    function returns 100, the fraction of matches is 1. *)
Lemma prediction_perf_is_not_the_fraction :
  gensvm_prediction_perf
    {| data_K := 1; data_n := 1; data_m := 0; data_r := 0;
       data_y := Some [1]; data_Z := [1%R]; data_RAW := []; data_J := [];
       data_kerneltype := K_LINEAR; data_kernelparam := None;
       data_use_cholesky := false |} [1]
  ≠ (IZR (hits [1%Z] [1%Z]) / IZR 1)%R.
Proof.
  unfold gensvm_prediction_perf. simpl data_y. simpl data_n. simpl default.
  rewrite perf_loop_hits by done.
  change (hits [1] [1]) with 1. lra.
Qed.

(** C3, amended. For a labeled data set of n >= 1 instances and a
    prediction vector of that length, gensvm_prediction_perf returns the
    percentage of hits: 100 times the number of instances whose predicted
    label equals the true label, divided by n. *)
Theorem prediction_perf_percentage (data : GenData) (y predy : list Z) :
  1 <= data_n data ->
  data_y data = Some y ->
  Z.of_nat (length y) = data_n data ->
  Z.of_nat (length predy) = data_n data ->
  gensvm_prediction_perf data predy
  = (100 * (IZR (hits y predy) / IZR (data_n data)))%R.
Proof.
  intros Hn Hy Hly Hlp. unfold gensvm_prediction_perf. rewrite Hy. simpl.
  rewrite perf_loop_hits by done. lra.
Qed.

Lemma prediction_perf_percentage_witness :
  gensvm_prediction_perf
    {| data_K := 2; data_n := 2; data_m := 0; data_r := 0;
       data_y := Some [1; 2]; data_Z := [1%R; 1%R]; data_RAW := [];
       data_J := []; data_kerneltype := K_LINEAR; data_kernelparam := None;
       data_use_cholesky := false |} [1; 1]
  = (100 * (IZR (hits [1%Z; 2%Z] [1%Z; 1%Z]) / IZR 2))%R.
Proof.
  refine (prediction_perf_percentage _ [1; 2] [1; 1] _ _ _ _);
    simpl; done || lia.
Defined.

(** ** msvmmaj_reallocate_model *)

Section reallocate_facts.
Context (can_alloc : Z -> bool) (uninit : R).

(** C10. Called with the dimensions the model already has,
    msvmmaj_reallocate_model returns the model as it is.  When only [n]
    differs, a call that returns has left W, t, V, Vbar, U and all
    parameter fields alone, has set [n], and has resized UU, Q, H, R and
    rho to the new number of instances, keeping their leading contents;
    the call returns whenever the five reallocations are served. *)
Theorem reallocate_model_frame (model : MajModel) (n m : Z) :
  m = model_m model ->
  (n = model_n model ->
     msvmmaj_reallocate_model can_alloc uninit model n m = Ret model) ∧
  (n ≠ model_n model ->
     let K := model_K model in
     (forall model',
        msvmmaj_reallocate_model can_alloc uninit model n m = Ret model' ->
        same_weights_and_parameters model' model ∧
        model_n model' = n ∧
        model_UU model' =
          resize (Z.to_nat (n * K * (K - 1))) uninit (model_UU model) ∧
        model_Q model' = resize (Z.to_nat (n * K)) uninit (model_Q model) ∧
        model_H model' = resize (Z.to_nat (n * K)) uninit (model_H model) ∧
        model_R model' = resize (Z.to_nat (n * K)) uninit (model_R model) ∧
        model_rho model' = resize (Z.to_nat n) uninit (model_rho model)) ∧
     (can_alloc (n * K * (K - 1) * 8) = true ->
      can_alloc (n * K * 8) = true ->
      can_alloc (n * 8) = true ->
      exists model',
        msvmmaj_reallocate_model can_alloc uninit model n m = Ret model')).
Proof.
  intros Hm. split.
  - intros Hn. unfold msvmmaj_reallocate_model.
    rewrite decide_True by (split; congruence). done.
  - intros Hn K.
    assert (Hrun : msvmmaj_reallocate_model can_alloc uninit model n m =
                   reallocate_n can_alloc uninit model n).
    { unfold msvmmaj_reallocate_model.
      rewrite decide_False by (intros [? _]; congruence).
      rewrite decide_True by congruence.
      unfold reallocate_n, realloc_or_exit. fold K.
      destruct (can_alloc (n * K * (K - 1) * 8)); outcome_simpl; [|done].
      destruct (can_alloc (n * K * 8)); outcome_simpl; [|done].
      destruct (can_alloc (n * 8)); outcome_simpl; [|done].
      rewrite decide_False by (simpl; congruence). done. }
    rewrite Hrun. unfold reallocate_n, realloc_or_exit. fold K. split.
    + intros model'.
      destruct (can_alloc (n * K * (K - 1) * 8)); outcome_simpl; [|done].
      destruct (can_alloc (n * K * 8)); outcome_simpl; [|done].
      destruct (can_alloc (n * 8)); outcome_simpl; [|done].
      intros [= <-]. unfold same_weights_and_parameters. simpl. done.
    + intros -> -> ->. outcome_simpl. eauto.
Qed.

End reallocate_facts.

Lemma reallocate_model_frame_witness :
  let model := small_model K_LINEAR None [0%R; 0%R] in
  msvmmaj_reallocate_model (fun _ => true) 0%R model 1 1 = Ret model.
Proof.
  intros model.
  exact (proj1 (reallocate_model_frame (fun _ => true) 0%R model 1 1 eq_refl)
           eq_refl).
Defined.

(** ** The heap *)

Lemma deref_insert_ne (h : gmap loc (list R)) (l l0 : loc) (b : list R) :
  l ≠ l0 -> deref (<[l := b]> h) (Some l0) = deref h (Some l0).
Proof. intros Hne. unfold deref. simpl. by rewrite lookup_insert_ne. Qed.

Lemma deref_insert_eq (h : gmap loc (list R)) (l : loc) (b : list R) :
  deref (<[l := b]> h) (Some l) = b.
Proof. unfold deref. simpl. by rewrite lookup_insert_eq. Qed.

Lemma deref_Some (h : gmap loc (list R)) (l : loc) (a : list R) :
  h !! l = Some a -> deref h (Some l) = a.
Proof. intros Hl. unfold deref. simpl. by rewrite Hl. Qed.

Lemma store_insert (h : gmap loc (list R)) (l : loc) (b : list R) (i : Z)
    (v : R) :
  store (<[l := b]> h) (Some l) i v = <[l := aset b i v]> h.
Proof.
  unfold store. exact (alter_insert_eq h l (fun a => aset a i v) b).
Qed.

Lemma deref_store_ne (h : gmap loc (list R)) (l l0 : loc) (i : Z) (v : R) :
  l ≠ l0 -> deref (store h (Some l) i v) (Some l0) = deref h (Some l0).
Proof. intros Hne. unfold deref, store. simpl. by rewrite lookup_alter_ne. Qed.

Lemma fresh_not_live (h : gmap loc (list R)) (l0 : loc) (a : list R) :
  h !! l0 = Some a -> fresh (dom h) ≠ l0.
Proof.
  intros Hl0 Heq. apply (is_fresh (dom h)). rewrite Heq.
  apply elem_of_dom. eauto.
Qed.

(** A fresh block of [kernelparam_count] cells, written cell by cell from
    a well-formed parameter array, holds that array. *)
Lemma copy_kernelparam_fresh (uninit : R) (h : gmap loc (list R))
    (t : GenTask) (l0 : loc) (a : list R) :
  task_kerneltype t ≠ K_LINEAR ->
  task_kernelparam t = Some l0 ->
  h !! l0 = Some a ->
  length a = kernelparam_count (task_kerneltype t) ->
  copy_kernelparam uninit h t
  = (Some (fresh (dom h)), <[fresh (dom h) := a]> h).
Proof.
  intros Hnl Hp Hl0 Hlen. unfold copy_kernelparam, alloc. rewrite Hp.
  pose proof (fresh_not_live h l0 a Hl0) as Hne.
  destruct (task_kerneltype t); [done| | |]; simpl in Hlen;
    repeat (destruct a as [|? a]; simpl in Hlen; try lia);
    rewrite ?store_insert, ?deref_insert_ne by done;
    rewrite (deref_Some h l0 _ Hl0); reflexivity.
Qed.

(** ** gensvm_copy_task *)

(** C7. The task gensvm_copy_task returns is a new structure whose
    kerneltype, weight_idx, folds, ID, p, kappa, lambda, epsilon and
    performance are those of [t]; its train_data and test_data are the
    very pointers of [t], and no data set is touched; its kernelparam is
    NULL for a linear kernel and otherwise a block that was not live
    before, of 1 (RBF), 3 (polynomial) or 2 (sigmoid) doubles equal to the
    parameters of [t]; every block and task that existed is unchanged, and
    a later write into the copy's parameters leaves those of [t] as they
    are. *)
Theorem copy_task_deep_copy (uninit : R) (mem : memory) (t : GenTask)
    (nt : loc) (mem' : memory) :
  kernelparam_ok (mem_doubles mem) (task_kerneltype t) (task_kernelparam t) ->
  gensvm_copy_task uninit mem t = (nt, mem') ->
  (nt ∉ dom (mem_tasks mem)) ∧
  (forall l, l ≠ nt -> mem_tasks mem' !! l = mem_tasks mem !! l) ∧
  mem_data mem' = mem_data mem ∧
  (forall l, l ∈ dom (mem_doubles mem) ->
     mem_doubles mem' !! l = mem_doubles mem !! l) ∧
  exists c,
    mem_tasks mem' !! nt = Some c ∧
    task_kerneltype c = task_kerneltype t ∧
    task_weight_idx c = task_weight_idx t ∧
    task_folds c = task_folds t ∧
    task_ID c = task_ID t ∧
    task_p c = task_p t ∧
    task_kappa c = task_kappa t ∧
    task_lambda c = task_lambda t ∧
    task_epsilon c = task_epsilon t ∧
    task_performance c = task_performance t ∧
    task_train_data c = task_train_data t ∧
    task_test_data c = task_test_data t ∧
    (task_kerneltype t = K_LINEAR -> task_kernelparam c = None) ∧
    (task_kerneltype t ≠ K_LINEAR ->
       exists l, task_kernelparam c = Some l ∧
         (l ∉ dom (mem_doubles mem)) ∧
         deref (mem_doubles mem') (Some l) =
           deref (mem_doubles mem) (task_kernelparam t) ∧
         length (deref (mem_doubles mem') (Some l)) =
           kernelparam_count (task_kerneltype t)) ∧
    (forall i v,
       deref (store (mem_doubles mem') (task_kernelparam c) i v)
         (task_kernelparam t)
       = deref (mem_doubles mem) (task_kernelparam t)).
Proof.
  intros Hok Hrun. unfold gensvm_copy_task, gensvm_init_task in Hrun.
  cbn [mem_doubles mem_tasks mem_data] in Hrun.
  destruct (copy_kernelparam uninit (mem_doubles mem) t) as [kp h] eqn:Hkp.
  injection Hrun as <- <-. cbn [mem_doubles mem_tasks mem_data].
  split; [apply is_fresh|].
  split; [intros l Hl; rewrite lookup_alter_ne, lookup_insert_ne; done|].
  split; [done|].
  destruct (decide (task_kerneltype t = K_LINEAR)) as [Hlin|Hnl].
  - (* linear: no block is allocated *)
    unfold copy_kernelparam in Hkp. rewrite Hlin in Hkp.
    injection Hkp as <- <-.
    split; [done|]. eexists. split.
    { rewrite lookup_alter_eq, lookup_insert_eq. reflexivity. }
    cbn. repeat split; try done.
  - (* a kernel with parameters: one fresh block *)
    destruct Hok as [Hlin|(l0 & a & Hp & Hl0 & Hlen)]; [done|].
    rewrite (copy_kernelparam_fresh uninit _ t l0 a) in Hkp by done.
    injection Hkp as <- <-.
    pose proof (fresh_not_live _ l0 a Hl0) as Hne.
    split.
    { intros l Hl. rewrite lookup_insert_ne; [done|].
      intros <-. by apply (is_fresh (dom (mem_doubles mem))). }
    eexists. split.
    { rewrite lookup_alter_eq, lookup_insert_eq. reflexivity. }
    cbn [task_kerneltype task_weight_idx task_folds task_ID task_p task_kappa
         task_lambda task_epsilon task_performance task_train_data
         task_test_data task_kernelparam].
    repeat split; try done.
    + intros _. eexists. split; [done|]. split; [apply is_fresh|].
      rewrite deref_insert_eq, Hp, (deref_Some _ _ _ Hl0). done.
    + intros i v. rewrite Hp, deref_store_ne, deref_insert_ne by done. done.
Qed.

Lemma copy_task_deep_copy_witness :
  let mem := small_memory [(1 / 4)%R; 1%R] in
  let t := small_task K_SIGMOID in
  mem_data (gensvm_copy_task 0%R mem t).2 = mem_data mem.
Proof.
  intros mem t.
  destruct (gensvm_copy_task 0%R mem t) as [nt mem'] eqn:Hrun.
  refine (proj1 (proj2 (proj2 (copy_task_deep_copy 0%R mem t nt mem' _ Hrun)))).
  right. exists 1%positive, [(1 / 4)%R; 1%R]. repeat split; reflexivity.
Defined.

(** ** Loops that write one cell per iteration *)

(** A loop that stores [val i] at index [idx i], with distinct indices
    inside the array: afterwards every written cell holds its value and
    every other cell is what it was. *)
Lemma aset_loop {A : Type} (d : A) (lo hi : Z) (idx : Z -> Z) (val : Z -> A)
    (a : list A) :
  lo <= hi ->
  (forall i, lo <= i < hi -> 0 <= idx i < Z.of_nat (length a)) ->
  (forall i j, lo <= i < hi -> lo <= j < hi -> idx i = idx j -> i = j) ->
  let a' := for_loop lo hi (fun i a => aset a (idx i) (val i)) a in
  length a' = length a ∧
  (forall i, lo <= i < hi -> aget d a' (idx i) = val i) ∧
  (forall p, (forall i, lo <= i < hi -> idx i ≠ p) -> aget d a' p = aget d a p).
Proof.
  intros Hle Hrange Hinj a'. subst a'.
  apply (for_loop_inv (fun k acc =>
    length acc = length a ∧
    (forall i, lo <= i < k -> aget d acc (idx i) = val i) ∧
    (forall p, (forall i, lo <= i < k -> idx i ≠ p) ->
       aget d acc p = aget d a p))); [done| |].
  - split; [done|]. split; [intros i Hi; lia|done].
  - intros k acc Hk (Hlen & Hset & Hframe).
    split; [by rewrite length_aset|]. split.
    + intros i Hi. destruct (decide (i = k)) as [->|Hik].
      * apply aget_aset_eq. rewrite Hlen. apply Hrange. lia.
      * rewrite aget_aset_ne.
        -- apply Hset. lia.
        -- intros Heq. apply Hik. symmetry. apply Hinj; [lia|lia|done].
    + intros p Hp. rewrite aget_aset_ne by (apply Hp; lia).
      apply Hframe. intros i Hi. apply Hp. lia.
Qed.

(** Distinct cells of a row-major matrix have distinct indices. *)
Lemma cell_index_inj (cols r1 c1 r2 c2 : Z) :
  0 <= c1 < cols -> 0 <= c2 < cols ->
  r1 * cols + c1 = r2 * cols + c2 -> r1 = r2 ∧ c1 = c2.
Proof.
  intros H1 H2 Heq.
  assert (Hr : r1 = r2).
  { destruct (Z.lt_trichotomy r1 r2) as [Hlt|[Heq'|Hgt]]; [|done|].
    - assert ((r1 + 1) * cols <= r2 * cols) by nia. lia.
    - assert ((r2 + 1) * cols <= r1 * cols) by nia. lia. }
  subst r2. lia.
Qed.

Lemma cell_index_range (cols rows r c : Z) :
  0 <= r < rows -> 0 <= c < cols -> 0 <= r * cols + c < rows * cols.
Proof. intros Hr Hc. nia. Qed.

(** ** The copy loops of msvmmaj_make_kernel *)

Lemma make_kernel_copy_spec (n : Z) (K Zm : list R) :
  0 <= n ->
  Z.of_nat (length Zm) = n * (n + 1) ->
  let Zm' := make_kernel_copy n K Zm in
  length Zm' = length Zm ∧
  (forall i, 0 <= i < n ->
     matrix_get Zm' (n + 1) i 0 = 1%R ∧
     (forall j, 0 <= j < n ->
        matrix_get Zm' (n + 1) i (j + 1) = matrix_get K n i j)).
Proof.
  intros Hn Hlen Zm'. subst Zm'. unfold make_kernel_copy.
  apply (for_loop_inv (fun k acc =>
    length acc = length Zm ∧
    (forall i, 0 <= i < k ->
       matrix_get acc (n + 1) i 0 = 1%R ∧
       (forall j, 0 <= j < n ->
          matrix_get acc (n + 1) i (j + 1) = matrix_get K n i j))));
    [done| |].
  - split; [done|]. intros i Hi. lia.
  - intros k acc Hk (Hl & Hrows). cbv beta zeta.
    destruct (aset_loop 0%R 0 n (fun j => k * (n + 1) + (j + 1))
                (fun j => matrix_get K n k j) acc) as (Hl1 & Hset & Hframe);
      [lia| | |].
    { intros j Hj. rewrite Hl, Hlen. nia. }
    { intros i j _ _ Heq. lia. }
    change (for_loop 0 n (fun j a => aset a (k * (n + 1) + (j + 1))
              (matrix_get K n k j)) acc)
      with (for_loop 0 n (fun j Zm0 =>
              matrix_set Zm0 (n + 1) k (j + 1) (matrix_get K n k j)) acc)
      in Hl1, Hset, Hframe.
    set (row := for_loop 0 n _ acc) in *.
    unfold matrix_set, matrix_get in Hset, Hrows |- *.
    split; [by rewrite length_aset, Hl1|].
    intros i Hi. destruct (decide (i = k)) as [->|Hik].
    + split.
      * apply aget_aset_eq. rewrite Hl1, Hl, Hlen. nia.
      * intros j Hj. rewrite aget_aset_ne by lia. apply Hset. lia.
    + assert (Hi' : 0 <= i < k) by lia.
      destruct (Hrows i Hi') as (Hone & Hcells). split.
      * rewrite aget_aset_ne by nia. rewrite Hframe; [done|].
        intros j Hj. nia.
      * intros j Hj. rewrite aget_aset_ne by nia. rewrite Hframe.
        -- by apply Hcells.
        -- intros j' Hj'. nia.
Qed.

(** ** The kernel descriptor msvmmaj_make_kernel leaves on the data *)

(** The [switch]: a fresh block holding the parameters of the model. *)
Lemma make_kernel_param_fresh (h : gmap loc (list R)) (model : MajModel)
    (old : ptr) (l0 : loc) (a : list R) :
  model_kerneltype model ≠ K_LINEAR ->
  model_kernelparam model = Some l0 ->
  h !! l0 = Some a ->
  length a = kernelparam_count (model_kerneltype model) ->
  make_kernel_param h model old
  = (Some (fresh (dom h)), <[fresh (dom h) := a]> h).
Proof.
  intros Hnl Hp Hl0 Hlen. unfold make_kernel_param, alloc. rewrite Hp.
  pose proof (fresh_not_live h l0 a Hl0) as Hne.
  destruct (model_kerneltype model); [done| | |]; simpl in Hlen;
    repeat (destruct a as [|? a]; simpl in Hlen; try lia);
    rewrite ?store_insert, ?deref_insert_ne by done;
    rewrite (deref_Some h l0 _ Hl0); reflexivity.
Qed.

Lemma free_lookup_ne (h : gmap loc (list R)) (p : ptr) (l0 : loc) :
  p ≠ Some l0 -> free h p !! l0 = h !! l0.
Proof.
  intros Hne. destruct p as [l|]; [|done]. simpl.
  apply lookup_delete_ne. congruence.
Qed.

Section make_kernel_effects.
Context (dpotrf : Z -> list R -> Z * list R) (uninit : R).

(** C5. For a kernel that is not linear, on a data set of n instances
    (the model's [n] being that of the data), with a well-formed kernel
    descriptor in the model that the data does not share, and a Cholesky
    factorisation that succeeds when it is asked for, msvmmaj_make_kernel
    returns; afterwards data->Z has n*(n+1) cells and ones in its first
    column (and, without Cholesky, the Gram matrix behind it), data->m and
    model->m are n, the kernel type of the data is
    that of the model, and data->kernelparam is a block that was not live
    after the old one was freed, of 1 (RBF), 2 (sigmoid) or 3 (polynomial)
    doubles equal to the model's parameters, which are left alone. *)
Theorem make_kernel_effects (h : gmap loc (list R)) (model : MajModel)
    (data : MajData) :
  model_kerneltype model ≠ K_LINEAR ->
  0 <= data_n data ->
  model_n model = data_n data ->
  kernelparam_ok h (model_kerneltype model) (model_kernelparam model) ->
  data_kernelparam data ≠ model_kernelparam model ->
  (model_use_cholesky model = true ->
     (dpotrf (model_n model)
        (make_kernel_gram model data (deref h (model_kernelparam model)))).1
     = 0) ->
  exists h' model' data',
    msvmmaj_make_kernel dpotrf uninit h model data = Ret (h', model', data') ∧
    let n := data_n data in
    Z.of_nat (length (data_Z data')) = n * (n + 1) ∧
    (forall i, 0 <= i < n -> matrix_get (data_Z data') (n + 1) i 0 = 1%R) ∧
    (model_use_cholesky model = false ->
     forall i j, 0 <= i < n -> 0 <= j < n ->
       matrix_get (data_Z data') (n + 1) i (j + 1)
       = matrix_get
           (make_kernel_gram model data (deref h (model_kernelparam model)))
           n i j) ∧
    data_m data' = n ∧
    model_m model' = n ∧
    data_kerneltype data' = model_kerneltype model' ∧
    model_kerneltype model' = model_kerneltype model ∧
    model_kernelparam model' = model_kernelparam model ∧
    deref h' (model_kernelparam model') = deref h (model_kernelparam model) ∧
    exists l,
      data_kernelparam data' = Some l ∧
      (l ∉ dom (free h (data_kernelparam data))) ∧
      Some l ≠ model_kernelparam model' ∧
      deref h' (Some l) = deref h' (model_kernelparam model') ∧
      length (deref h' (Some l)) = kernelparam_count (model_kerneltype model).
Proof.
  intros Hnl Hn Hmn Hok Halias Hchol.
  destruct Hok as [Hlin|(l0 & a & Hp & Hl0 & Hlen)]; [done|].
  unfold msvmmaj_make_kernel. rewrite decide_False by done.
  set (G := make_kernel_gram model data (deref h (model_kernelparam model)))
    in *.
  assert (Hfac : exists K,
    (if model_use_cholesky model
     then let '(status, K) := dpotrf (model_n model) G in
          if decide (status ≠ 0) then Exit 0 else Ret K
     else Ret G) = Ret K ∧
    (model_use_cholesky model = false -> K = G)).
  { destruct (model_use_cholesky model); [|by exists G].
    specialize (Hchol eq_refl).
    destruct (dpotrf (model_n model) G) as [status K']. simpl in Hchol.
    rewrite decide_False by (intros Hs; apply Hs, Hchol).
    exists K'. split; [reflexivity|discriminate]. }
  destruct Hfac as (K & -> & HKG). outcome_simpl.
  assert (Hlive : free h (data_kernelparam data) !! l0 = Some a).
  { rewrite free_lookup_ne; [done|]. by rewrite <- Hp. }
  rewrite (make_kernel_param_fresh _ model _ l0 a) by done.
  pose proof (fresh_not_live _ l0 a Hlive) as Hne.
  set (l := fresh (dom (free h (data_kernelparam data)))) in *.
  do 3 eexists. split; [reflexivity|].
  cbn [data_Z data_m data_kerneltype data_kernelparam model_m set_model_m
       model_kerneltype model_kernelparam].
  rewrite Hmn.
  destruct (make_kernel_copy_spec (data_n data) K
              (resize (Z.to_nat (data_n data * (data_n data + 1))) uninit
                 (data_Z data))) as (Hlen' & Hrows); [done| |].
  { rewrite length_resize. nia. }
  split. { rewrite Hlen', length_resize. nia. }
  split. { intros i Hi. by apply Hrows. }
  split. { intros Hno i j Hi Hj. rewrite <- (HKG Hno). by apply Hrows. }
  do 5 (split; [done|]).
  rewrite Hp. split.
  { rewrite deref_insert_ne by done.
    rewrite (deref_Some _ _ _ Hlive), (deref_Some _ _ _ Hl0). done. }
  exists l. split; [done|]. split; [apply is_fresh|].
  split; [congruence|].
  rewrite deref_insert_eq, deref_insert_ne by done.
  rewrite (deref_Some _ _ _ Hlive). done.
Qed.

End make_kernel_effects.

Lemma make_kernel_effects_witness :
  let h : gmap loc (list R) := {[ 1%positive := [(1 / 4)%R; 1%R] ]} in
  let model := small_model K_SIGMOID (Some 1%positive) [0%R; 0%R] in
  exists h' model' data',
    msvmmaj_make_kernel (fun _ K => (0, K)) 0%R h model (small_data 0)
      = Ret (h', model', data') ∧
    data_m data' = 1 ∧ model_m model' = 1.
Proof.
  intros h model.
  destruct (make_kernel_effects (fun _ K => (0, K)) 0%R h model (small_data 0))
    as (h' & model' & data' & Hrun & _ & _ & _ & Hdm & Hmm & _).
  - discriminate.
  - simpl. lia.
  - reflexivity.
  - right. exists 1%positive, [(1 / 4)%R; 1%R]. repeat split; reflexivity.
  - discriminate.
  - intros _. reflexivity.
  - exists h', model', data'. repeat split; assumption.
Defined.

(** ** Sums computed by a loop *)

Lemma foldl_sum {B : Type} (f : B -> R) (l : list B) (s : R) :
  foldl (fun acc i => acc + f i)%R s l = (s + foldr Rplus 0 (f <$> l))%R.
Proof.
  revert s. induction l as [|x l IH]; intros s.
  - simpl. lra.
  - rewrite fmap_cons. cbn [foldl foldr]. rewrite IH. lra.
Qed.

Lemma for_loop_sum (f : Z -> R) (lo hi : Z) :
  for_loop lo hi (fun i acc => acc + f i)%R 0%R
  = foldr Rplus 0%R (f <$> seqZ lo (hi - lo)).
Proof. unfold for_loop. rewrite foldl_sum. lra. Qed.

Lemma sum_nonneg {B : Type} (f : B -> R) (l : list B) :
  (forall x, 0 <= f x)%R -> (0 <= foldr Rplus 0 (f <$> l))%R.
Proof.
  intros Hf. induction l as [|x l IH]; [simpl; lra|].
  rewrite fmap_cons. cbn [foldr]. specialize (Hf x). lra.
Qed.

(** ** The kernel functions *)

Lemma compute_rbf_closed_form (x1 x2 kernelparam : list R) (m : Z) :
  msvmmaj_compute_rbf x1 x2 kernelparam m
  = exp (- kernelparam.[0] * sq_dist x1 x2 m).
Proof.
  unfold msvmmaj_compute_rbf, sq_dist.
  rewrite (for_loop_sum (fun k => (x1.[k] - x2.[k]) * (x1.[k] - x2.[k]))%R).
  rewrite Z.sub_0_r. f_equal. lra.
Qed.

Lemma compute_sigmoid_closed_form (x1 x2 kernelparam : list R) (m : Z) :
  msvmmaj_compute_sigmoid x1 x2 kernelparam m
  = tanh (kernelparam.[0] * inner_product x1 x2 m + kernelparam.[1]).
Proof.
  unfold msvmmaj_compute_sigmoid, inner_product.
  rewrite (for_loop_sum (fun k => x1.[k] * x2.[k])%R).
  rewrite Z.sub_0_r. f_equal. lra.
Qed.

Lemma sq_dist_sym (x1 x2 : list R) (m : Z) : sq_dist x1 x2 m = sq_dist x2 x1 m.
Proof.
  unfold sq_dist. f_equal. apply list_fmap_ext. intros _ k _. ring.
Qed.

Lemma sq_dist_nonneg (x1 x2 : list R) (m : Z) : (0 <= sq_dist x1 x2 m)%R.
Proof. unfold sq_dist. apply sum_nonneg. intros k. apply Rle_0_sqr. Qed.

Lemma compute_rbf_sym (x1 x2 kernelparam : list R) (m : Z) :
  msvmmaj_compute_rbf x1 x2 kernelparam m
  = msvmmaj_compute_rbf x2 x1 kernelparam m.
Proof. by rewrite !compute_rbf_closed_form, sq_dist_sym. Qed.

Lemma compute_rbf_unit_interval (x1 x2 kernelparam : list R) (m : Z) :
  (0 <= kernelparam.[0])%R ->
  (0 < msvmmaj_compute_rbf x1 x2 kernelparam m <= 1)%R.
Proof.
  intros Hgamma. rewrite compute_rbf_closed_form. split; [apply exp_pos|].
  pose proof (sq_dist_nonneg x1 x2 m) as Hd.
  set (e := (- kernelparam.[0] * sq_dist x1 x2 m)%R).
  assert (He : (e <= 0)%R) by (unfold e; nra).
  destruct He as [Hlt|Heq].
  - left. rewrite <- exp_0. by apply exp_increasing.
  - rewrite Heq, exp_0. lra.
Qed.

(** ** The Gram loops of msvmmaj_make_kernel *)

(** The row loop: cells (i, b) and (b, i) for b from i on receive
    [val i b], and no other cell changes. *)
Lemma gram_row (n i : Z) (val : Z -> Z -> R) (K0 : list R) :
  0 <= i < n ->
  n * n <= Z.of_nat (length K0) ->
  let K' := for_loop i n (fun j K =>
      let value := val i j in
      let K := matrix_set K n i j value in
      matrix_set K n j i value) K0 in
  length K' = length K0 ∧
  (forall b, i <= b < n ->
     matrix_get K' n i b = val i b ∧ matrix_get K' n b i = val i b) ∧
  (forall p, (forall b, i <= b < n -> p ≠ i * n + b ∧ p ≠ b * n + i) ->
     aget 0%R K' p = aget 0%R K0 p).
Proof.
  intros Hi Hlen K'. subst K'.
  apply (for_loop_inv (fun j acc =>
    length acc = length K0 ∧
    (forall b, i <= b < j ->
       matrix_get acc n i b = val i b ∧ matrix_get acc n b i = val i b) ∧
    (forall p, (forall b, i <= b < j -> p ≠ i * n + b ∧ p ≠ b * n + i) ->
       aget 0%R acc p = aget 0%R K0 p))); [lia| |].
  - split; [done|]. split; [intros b Hb; lia|done].
  - intros j acc Hj (Hl & Hcells & Hframe). cbv beta zeta.
    unfold matrix_set, matrix_get in *.
    split; [by rewrite !length_aset|].
    assert (Hin1 : 0 <= i * n + j < Z.of_nat (length acc)) by (rewrite Hl; nia).
    assert (Hin2 : 0 <= j * n + i < Z.of_nat (length acc)) by (rewrite Hl; nia).
    split.
    + intros b Hb. destruct (decide (b = j)) as [->|Hbj].
      * split; [|apply aget_aset_eq; by rewrite length_aset].
        destruct (decide (j * n + i = i * n + j)) as [Heq|Hne].
        -- rewrite Heq. apply aget_aset_eq. by rewrite length_aset.
        -- rewrite aget_aset_ne by done. by apply aget_aset_eq.
      * assert (Hb' : i <= b < j) by lia.
        destruct (Hcells b Hb') as (H1 & H2).
        assert (Hd1 : j * n + i ≠ i * n + b)
          by (intros Heq; apply cell_index_inj in Heq; lia).
        assert (Hd2 : i * n + j ≠ i * n + b) by lia.
        assert (Hd3 : j * n + i ≠ b * n + i) by nia.
        assert (Hd4 : i * n + j ≠ b * n + i)
          by (intros Heq; apply cell_index_inj in Heq; lia).
        rewrite !aget_aset_ne by done. done.
    + intros p Hp.
      destruct (Hp j ltac:(lia)) as (Hp1 & Hp2).
      rewrite !aget_aset_ne by done.
      apply Hframe. intros b Hb. apply Hp. lia.
Qed.

(** Both triangles after the two loops: cell (a, b) with a <= b and its
    mirror image hold [val a b]. *)
Lemma gram_loops (n : Z) (val : Z -> Z -> R) (K0 : list R) :
  0 <= n ->
  n * n <= Z.of_nat (length K0) ->
  let K' := for_loop 0 n (fun i K =>
    for_loop i n (fun j K =>
      let value := val i j in
      let K := matrix_set K n i j value in
      matrix_set K n j i value) K) K0 in
  forall a b, 0 <= a -> a <= b < n ->
    matrix_get K' n a b = val a b ∧ matrix_get K' n b a = val a b.
Proof.
  intros Hn Hlen K'. subst K'.
  assert (Hfinal : let acc := for_loop 0 n (fun i K =>
      for_loop i n (fun j K =>
        let value := val i j in
        let K := matrix_set K n i j value in
        matrix_set K n j i value) K) K0 in
    length acc = length K0 ∧
    forall a b, 0 <= a < n -> a <= b < n ->
      matrix_get acc n a b = val a b ∧ matrix_get acc n b a = val a b).
  { apply (for_loop_inv (fun i acc =>
      length acc = length K0 ∧
      forall a b, 0 <= a < i -> a <= b < n ->
        matrix_get acc n a b = val a b ∧ matrix_get acc n b a = val a b));
      [done| |].
    - split; [done|]. intros a b Ha. lia.
    - intros i acc Hi (Hl & Hdone).
      destruct (gram_row n i val acc Hi) as (Hl' & Hrow & Hframe);
        [by rewrite Hl|].
      split; [by rewrite Hl'|].
      intros a b Ha Hb. destruct (decide (a = i)) as [->|Hai].
      + by apply Hrow.
      + assert (Ha' : 0 <= a < i) by lia.
        destruct (Hdone a b Ha' Hb) as (H1 & H2).
        unfold matrix_get in *. rewrite !Hframe; [done| |].
        * intros b' Hb'. split; intros Heq; apply cell_index_inj in Heq; lia.
        * intros b' Hb'. split; intros Heq; apply cell_index_inj in Heq; lia. }
  destruct Hfinal as (_ & Hfinal). intros a b Ha Hb. apply Hfinal; lia.
Qed.

(** Every cell of the Gram matrix of msvmmaj_make_kernel holds the value
    the loop body computes for its row and column taken in increasing
    order. *)
Lemma make_kernel_gram_cells (model : MajModel) (data : MajData)
    (kernelparam : list R) (a b : Z) :
  let n := model_n model in
  let G := make_kernel_gram model data kernelparam in
  0 <= a -> a <= b < n ->
  matrix_get G n a b = kernel_value model data kernelparam a b ∧
  matrix_get G n b a = kernel_value model data kernelparam a b.
Proof.
  intros n G Ha Hb. subst G. unfold make_kernel_gram. fold n.
  apply (gram_loops n (kernel_value model data kernelparam)); [lia| |done|done].
  rewrite length_replicate. nia.
Qed.

(** ** The RBF kernel *)

(** C4, as stated, fails for a negative gamma: with gamma = -1 the value
    for the one-dimensional instances 0 and 1 is exp(1), above 1. *)
Lemma rbf_negative_gamma_above_one :
  ~ (0 < msvmmaj_compute_rbf [0%R] [1%R] [(-1)%R] 1 <= 1)%R.
Proof.
  rewrite compute_rbf_closed_form.
  change (sq_dist [0%R] [1%R] 1) with ((0 - 1) * (0 - 1) + 0)%R.
  change ([(-1)%R].[0]) with (-1)%R.
  replace (- -1 * ((0 - 1) * (0 - 1) + 0))%R with 1%R by lra.
  pose proof (exp_ineq1 1 ltac:(lra)). lra.
Qed.

(** C4, amended. For every pair of instances and every RBF parameter
    gamma, the value of msvmmaj_compute_rbf is
    exp(-gamma * ||x_i - x_j||^2) and is symmetric in the two instances,
    and every cell (i, j) of the Gram matrix that msvmmaj_make_kernel
    builds for an RBF kernel holds that value for rows i and j, so that
    K[i][j] = K[j][i].  For gamma > 0 the value lies in the closed
    interval [0, 1]: the lower end is not excluded, since the machine's
    exp returns 0.0 once gamma * ||x_i - x_j||^2 is large (gamma = 1 and
    the features 0 and 30). *)
Theorem rbf_kernel_symmetric_unit_interval (model : MajModel)
    (data : MajData) (kernelparam : list R) :
  model_kerneltype model = K_RBF ->
  (forall x1 x2 m,
     msvmmaj_compute_rbf x1 x2 kernelparam m
       = exp (- kernelparam.[0] * sq_dist x1 x2 m) ∧
     msvmmaj_compute_rbf x1 x2 kernelparam m
       = msvmmaj_compute_rbf x2 x1 kernelparam m ∧
     ((0 < kernelparam.[0])%R ->
      (0 <= msvmmaj_compute_rbf x1 x2 kernelparam m <= 1)%R)) ∧
  (let n := model_n model in
   let G := make_kernel_gram model data kernelparam in
   forall i j, 0 <= i < n -> 0 <= j < n ->
     matrix_get G n i j = matrix_get G n j i ∧
     matrix_get G n i j
       = msvmmaj_compute_rbf (feature_row data i) (feature_row data j)
           kernelparam (data_m data) ∧
     ((0 < kernelparam.[0])%R -> (0 <= matrix_get G n i j <= 1)%R)).
Proof.
  intros Hrbf.
  assert (Hunit : forall x1 x2 m, (0 < kernelparam.[0])%R ->
    (0 <= msvmmaj_compute_rbf x1 x2 kernelparam m <= 1)%R).
  { intros x1 x2 m Hgamma.
    pose proof (compute_rbf_unit_interval x1 x2 kernelparam m) as Hu.
    split; [left|]; apply Hu; lra. }
  split.
  - intros x1 x2 m. split; [apply compute_rbf_closed_form|].
    split; [apply compute_rbf_sym|apply Hunit].
  - intros n G.
    assert (Hcell : forall i j, 0 <= i < n -> 0 <= j < n ->
      matrix_get G n i j
      = msvmmaj_compute_rbf (feature_row data i) (feature_row data j)
          kernelparam (data_m data)).
    { intros i j Hi Hj. destruct (decide (i <= j)) as [Hij|Hji].
      - destruct (make_kernel_gram_cells model data kernelparam i j)
          as (Hup & _); [lia|lia|].
        fold n G in Hup. rewrite Hup. unfold kernel_value. by rewrite Hrbf.
      - destruct (make_kernel_gram_cells model data kernelparam j i)
          as (_ & Hlow); [lia|lia|].
        fold n G in Hlow. rewrite Hlow. unfold kernel_value. rewrite Hrbf.
        apply compute_rbf_sym. }
    intros i j Hi Hj. rewrite (Hcell i j), (Hcell j i) by done.
    split; [apply compute_rbf_sym|]. split; [done|apply Hunit].
Qed.

Lemma rbf_kernel_symmetric_unit_interval_witness :
  let model := pair_model K_RBF (Some 1%positive) in
  let G := make_kernel_gram model (pair_data 0 30) [1%R] in
  matrix_get G 2 0 1 = matrix_get G 2 1 0 ∧
  (0 <= matrix_get G 2 0 1 <= 1)%R.
Proof.
  intros model G.
  destruct (proj2 (rbf_kernel_symmetric_unit_interval model (pair_data 0 30)
                     [1%R] eq_refl) 0 1 ltac:(simpl; lia) ltac:(simpl; lia))
    as (Hsym & _ & Hunit).
  split; [exact Hsym|]. apply Hunit.
  change ([1%R].[0]) with 1%R. lra.
Defined.

(** ** The sigmoid kernel *)

(** For a sigmoid descriptor the Gram matrix holds the values of
    msvmmaj_compute_rbf: that is the function the loop calls. *)
Lemma sigmoid_gram_holds_rbf (model : MajModel) (data : MajData)
    (kernelparam : list R) (i j : Z) :
  model_kerneltype model = K_SIGMOID ->
  let n := model_n model in
  let G := make_kernel_gram model data kernelparam in
  0 <= i < n -> 0 <= j < n ->
  matrix_get G n i j
  = msvmmaj_compute_rbf (feature_row data i) (feature_row data j)
      kernelparam (data_m data).
Proof.
  intros Hsig n G Hi Hj. destruct (decide (i <= j)) as [Hij|Hji].
  - destruct (make_kernel_gram_cells model data kernelparam i j)
      as (Hup & _); [lia|lia|].
    fold n G in Hup. rewrite Hup. unfold kernel_value. by rewrite Hsig.
  - destruct (make_kernel_gram_cells model data kernelparam j i)
      as (_ & Hlow); [lia|lia|].
    fold n G in Hlow. rewrite Hlow. unfold kernel_value. rewrite Hsig.
    apply compute_rbf_sym.
Qed.

Lemma tanh_0 : tanh 0 = 0%R.
Proof. unfold tanh. rewrite sinh_0, cosh_0. lra. Qed.

(** C1 at the failing input: one instance with the single feature 0,
    sigmoid kernel with gamma = 1 and coef = 0.  The Gram matrix gets
    exp(-1 * 0) = 1 in its only cell; the sigmoid kernel of the instance
    with itself, which msvmmaj_compute_sigmoid computes, is tanh(0) = 0. *)
Theorem sigmoid_gram_is_not_sigmoid :
  let model := small_model K_SIGMOID (Some 1%positive) [0%R; 0%R] in
  let data := small_data 0 in
  let kernelparam := [1%R; 0%R] in
  matrix_get (make_kernel_gram model data kernelparam) 1 0 0 = 1%R ∧
  msvmmaj_compute_sigmoid (feature_row data 0) (feature_row data 0)
    kernelparam (data_m data) = 0%R.
Proof.
  intros model data kernelparam. split.
  - etransitivity.
    { exact (sigmoid_gram_holds_rbf model data kernelparam 0 0 eq_refl
               ltac:(simpl; lia) ltac:(simpl; lia)). }
    rewrite compute_rbf_closed_form.
    change (sq_dist (feature_row data 0) (feature_row data 0) (data_m data))
      with ((0 - 0) * (0 - 0) + 0)%R.
    change (kernelparam.[0]) with 1%R.
    replace (- (1) * ((0 - 0) * (0 - 0) + 0))%R with 0%R by lra.
    apply exp_0.
  - rewrite compute_sigmoid_closed_form.
    change (inner_product (feature_row data 0) (feature_row data 0)
              (data_m data)) with (0 * 0 + 0)%R.
    change (kernelparam.[0]) with 1%R. change (kernelparam.[1]) with 0%R.
    replace (1 * (0 * 0 + 0) + 0)%R with 0%R by lra.
    apply tanh_0.
Qed.

(** ** Integral doubles *)

Lemma Int_part_IZR (z : Z) : Int_part (IZR z) = z.
Proof. symmetry. apply Int_part_spec. split; lra. Qed.

Lemma long_of_double_IZR (z : Z) : long_of_double (IZR z) = z.
Proof.
  unfold long_of_double. destruct (Rle_dec 0 (IZR z)) as [Hle|Hgt].
  - apply Int_part_IZR.
  - rewrite <- opp_IZR, Int_part_IZR. lia.
Qed.

Lemma maximum_IZR (a b : Z) : maximum (IZR a) (IZR b) = IZR (Z.max a b).
Proof.
  unfold maximum. destruct (Rgt_dec (IZR a) (IZR b)) as [Hgt|Hle].
  - apply lt_IZR in Hgt. f_equal. lia.
  - f_equal. apply Rnot_gt_le, le_IZR in Hle. lia.
Qed.

Lemma minimum_IZR (a b : Z) : minimum (IZR a) (IZR b) = IZR (Z.min a b).
Proof.
  unfold minimum. destruct (Rlt_dec (IZR a) (IZR b)) as [Hlt|Hge].
  - apply lt_IZR in Hlt. f_equal. lia.
  - f_equal. apply Rnot_lt_le, le_IZR in Hge. lia.
Qed.

(** ** msvmmaj_read_data *)

(** C8 at the failing input: the file
    <<
    2 1
    0.0 2
    0.0 1
    >>
    is read without error, its raw labels 2 and 1 are non-negative, and
    the data set comes out with the labels [2; 1] and K = 1: the label of
    the first line is above K.  The label of the first line is stored
    before the loop and never enters the maximum and the minimum. *)
Theorem read_data_first_label_above_K (uninit : R) (uninit_long : Z)
    (dataset : MajData) :
  let fid := {| file_n := 2; file_m := 1;
                file_lines := [[]; [0%R; 2%R]; [0%R; 1%R]] |} in
  exists d,
    msvmmaj_read_data uninit uninit_long dataset (Some fid) = Ret d ∧
    data_y d = Some [2; 1] ∧
    data_K d = 1 ∧
    ~ (forall i, 0 <= i < data_n d ->
         1 <= aget 0 (default [] (data_y d)) i <= data_K d).
Proof.
  intros fid.
  exists {| data_K := 1; data_n := 2; data_m := 1;
            data_r := data_r dataset; data_y := Some [2; 1];
            data_Z := [1%R; 0%R; 1%R; 0%R];
            data_RAW := data_RAW dataset; data_J := data_J dataset;
            data_kerneltype := data_kerneltype dataset;
            data_kernelparam := data_kernelparam dataset;
            data_use_cholesky := data_use_cholesky dataset |}.
  split.
  { unfold msvmmaj_read_data, fid.
    cbv -[long_of_double maximum minimum IZR mbind mret].
    rewrite maximum_IZR, minimum_IZR, !long_of_double_IZR.
    cbv -[IZR]. reflexivity. }
  split; [reflexivity|]. split; [reflexivity|].
  cbn [data_n data_y data_K default]. intros Hall.
  assert (Hfirst : 1 <= aget 0 [2; 1] 0 <= 1) by (apply Hall; lia).
  change (aget 0 [2; 1] 0) with 2 in Hfirst. lia.
Qed.

(** ** The nearest-vertex loops on an instance far from every vertex *)

(** For K = 2 the scratch vector has one cell, which the fill loop sets
    to the difference of the instance and the vertex. *)
Lemma fill_S_two (ZV U : list R) (i j : Z) (Sv : list R) :
  fill_S 2 ZV U i j Sv
  = aset Sv 0 (matrix_get ZV 1 i 0 - matrix_get U 1 j 0)%R.
Proof. reflexivity. Qed.

Lemma dnrm2_one (beyond d : R) (Sv : list R) :
  (0 < length Sv)%nat ->
  cblas_dnrm2 beyond 1 (aset Sv 0 d) = sqrt (0 + d * d).
Proof.
  intros Hlen. unfold cblas_dnrm2.
  change (for_loop 0 1 ?f 0%R) with (f 0 0%R). cbv beta.
  rewrite aget_aset_eq by lia. done.
Qed.

Lemma dnrm2_two (beyond d : R) (Sv : list R) :
  length Sv = 1%nat ->
  cblas_dnrm2 beyond 2 (aset Sv 0 d)
  = sqrt (0 + d * d + beyond * beyond).
Proof.
  intros Hlen. unfold cblas_dnrm2.
  change (for_loop 0 2 ?f 0%R) with (f 1 (f 0 0%R)). cbv beta.
  rewrite aget_aset_eq by lia.
  destruct Sv as [|s [|? ?]]; [done| |done]. done.
Qed.

Lemma norm_at_least (d b bound : R) :
  (0 <= bound <= d)%R -> (bound <= sqrt (0 + d * d + b * b))%R.
Proof.
  intros Hd. apply Rle_trans with (sqrt (d * d)).
  - rewrite sqrt_square by lra. lra.
  - apply sqrt_le_1_alt. pose proof (Rle_0_sqr b) as Hb. unfold Rsqr in Hb.
    lra.
Qed.

Section far_instance.
Context (gensvm_simplex_gen : Z -> list R -> list R).
Context (gensvm_make_crosskernel : GenModel -> GenData -> GenData -> list R).
Context (beyond : R).

(** The linear loops leave [label] at 0 when both vertices are at least
    the sentinel away. *)
Lemma nearest_linear_far (ZV U Sv : list R) :
  length Sv = 1%nat ->
  (1000000000 <= matrix_get ZV 1 0 0 - matrix_get U 1 0 0)%R ->
  (1000000000 <= matrix_get ZV 1 0 0 - matrix_get U 1 1 0)%R ->
  exists min_dist Sv',
    Rev1.nearest_linear 2 ZV U 0 Sv = (0, min_dist, Sv') ∧ length Sv' = 1%nat.
Proof.
  intros Hlen H0 H1. unfold Rev1.nearest_linear.
  change (for_loop 0 2 ?f ?s) with (f 1 (f 0 s)). cbv beta iota.
  rewrite fill_S_two, dnrm2_one by lia.
  destruct (Rlt_dec _ _) as [Hlt|_].
  { exfalso. pose proof (norm_at_least
      (matrix_get ZV 1 0 0 - matrix_get U 1 0 0) 0 1000000000) as Hn.
    replace (0 * 0)%R with 0%R in Hn by lra. rewrite Rplus_0_r in Hn. lra. }
  rewrite fill_S_two, dnrm2_one by (rewrite length_aset; lia).
  destruct (Rlt_dec _ _) as [Hlt|_].
  { exfalso. pose proof (norm_at_least
      (matrix_get ZV 1 0 0 - matrix_get U 1 1 0) 0 1000000000) as Hn.
    replace (0 * 0)%R with 0%R in Hn by lra. rewrite Rplus_0_r in Hn. lra. }
  do 2 eexists. split; [reflexivity|]. by rewrite !length_aset.
Qed.

(** So do the kernel loops, whatever lies behind the scratch vector. *)
Lemma nearest_kernel_far (ZV U Sv : list R) :
  length Sv = 1%nat ->
  (10000000000 <= matrix_get ZV 1 0 0 - matrix_get U 1 0 0)%R ->
  (10000000000 <= matrix_get ZV 1 0 0 - matrix_get U 1 1 0)%R ->
  exists min_dist Sv',
    Rev1.nearest_kernel beyond 2 ZV U 0 Sv = (0, min_dist, Sv')
    ∧ length Sv' = 1%nat.
Proof.
  intros Hlen H0 H1. unfold Rev1.nearest_kernel.
  change (for_loop 0 2 ?f ?s) with (f 1 (f 0 s)). cbv beta iota.
  rewrite fill_S_two, dnrm2_two by lia.
  destruct (Rlt_dec _ _) as [Hlt|_].
  { exfalso. pose proof (norm_at_least
      (matrix_get ZV 1 0 0 - matrix_get U 1 0 0) beyond 10000000000) as Hn.
    lra. }
  rewrite fill_S_two, dnrm2_two by (rewrite length_aset; lia).
  destruct (Rlt_dec _ _) as [Hlt|_].
  { exfalso. pose proof (norm_at_least
      (matrix_get ZV 1 0 0 - matrix_get U 1 1 0) beyond 10000000000) as Hn.
    lra. }
  do 2 eexists. split; [reflexivity|]. by rewrite !length_aset.
Qed.

Lemma far_point_is_far (U : list R) (j : Z) :
  0 <= j < 2 ->
  (10000000000 <= far_point U - matrix_get U 1 j 0)%R.
Proof.
  intros Hj. unfold far_point, matrix_get.
  pose proof (Rle_abs U.[0]) as Ha0. pose proof (Rle_abs U.[1]) as Ha1.
  pose proof (Rabs_pos U.[0]) as Hp0. pose proof (Rabs_pos U.[1]) as Hp1.
  assert (Hcase : j = 0 ∨ j = 1) by lia.
  destruct Hcase as [-> | ->].
  - change (0 * 1 + 0) with 0. lra.
  - change (1 * 1 + 0) with 1. lra.
Qed.

(** The instance the examples use: K = 2 classes, one test instance whose
    image under V is [far_point] of the simplex. *)
Lemma predict_labels_linear_far (predy : list Z) :
  let U := gensvm_simplex_gen 2 [0%R; 0%R] in
  let model := small_model K_LINEAR None [far_point U; 0%R] in
  Rev1.gensvm_predict_labels_linear gensvm_simplex_gen (small_data 0) model
    predy = aset predy 0 0.
Proof.
  intros U model. unfold Rev1.gensvm_predict_labels_linear.
  cbn [small_data small_model data_n data_m data_Z model_K model_V model].
  change (2 - 1) with 1. change (1 + 1) with 2.
  change (Z.to_nat (1 * 1)) with 1%nat. change (Z.to_nat 1) with 1%nat.
  change (Z.to_nat (2 * 1)) with 2%nat.
  change (replicate 2 0%R) with [0%R; 0%R]. fold U.
  change (replicate 1 0%R) with [0%R].
  set (ZV := cblas_dgemm _ _ _ _ _ _ _ _ _ _ _).
  assert (HZV : matrix_get ZV 1 0 0 = far_point U).
  { transitivity (1 * (0 + 1 * far_point U + 0 * 0) + 0 * 0)%R;
      [reflexivity|lra]. }
  change (for_loop 0 1 ?f ?s) with (f 0 s). cbv beta iota.
  destruct (nearest_linear_far ZV U [0%R]) as (min_dist & Sv' & -> & _);
    [done| | |done].
  - rewrite HZV. pose proof (far_point_is_far U 0 ltac:(lia)). lra.
  - rewrite HZV. pose proof (far_point_is_far U 1 ltac:(lia)). lra.
Qed.

Lemma predict_labels_kernel_far (kerneltype : KernelType) (predy : list Z) :
  let U := gensvm_simplex_gen 2 [0%R; 0%R] in
  let model := small_model kerneltype None [far_point U; 0%R] in
  Rev1.gensvm_predict_labels_kernel gensvm_simplex_gen gensvm_make_crosskernel
    beyond (small_data 0) (small_data 0) model predy = aset predy 0 0.
Proof.
  intros U model. unfold Rev1.gensvm_predict_labels_kernel.
  set (K2 := gensvm_make_crosskernel model (small_data 0) (small_data 0)).
  cbn [small_data small_model data_n data_m data_Z data_J model_K model_V
       model_m model].
  change (2 - 1) with 1. change (1 + 1) with 2.
  change (Z.to_nat (1 * 2)) with 2%nat. change (Z.to_nat 1) with 1%nat.
  change (Z.to_nat (2 * 1)) with 2%nat.
  change (replicate 2 0%R) with [0%R; 0%R]. fold U.
  change (replicate 1 0%R) with [0%R].
  set (KPS := Rev1.kernel_KPS _ _ _ _ _ _ _).
  set (ZV := cblas_dgemm _ _ _ _ _ _ _ _ _ _ _).
  assert (HZV : matrix_get ZV 1 0 0 = far_point U).
  { transitivity (1 * (0 + 1 * far_point U
                         + (0 + K2.[0] * 0) * 1 * 0) + 0 * 0)%R;
      [reflexivity|lra]. }
  change (for_loop 0 1 ?f ?s) with (f 0 s). cbv beta iota.
  destruct (nearest_kernel_far ZV U [0%R]) as (min_dist & Sv' & -> & _);
    [done| | |done].
  - rewrite HZV. apply far_point_is_far. lia.
  - rewrite HZV. apply far_point_is_far. lia.
Qed.

(** C2 at the failing input, on both paths of gensvm_predict_labels:
    K = 2 classes and one test instance that V maps to a point 1e10 or
    more away from both simplex vertices.  Whatever the simplex generator,
    the cross kernel and the memory behind the scratch vector are, the
    label written is 0, which is j+1 for no vertex index j in [0, K-1]. *)
Theorem predict_labels_far_instance_not_nearest (kerneltype : KernelType) :
  let U := gensvm_simplex_gen 2 [0%R; 0%R] in
  let model := small_model kerneltype None [far_point U; 0%R] in
  let predy := Rev1.gensvm_predict_labels gensvm_simplex_gen
      gensvm_make_crosskernel beyond (small_data 0) (small_data 0) model [7] in
  predy = [0] ∧
  ~ (exists j, 0 <= j < model_K model ∧ aget 0 predy 0 = j + 1).
Proof.
  intros U model predy.
  assert (Hrun : predy = [0]).
  { subst predy. unfold Rev1.gensvm_predict_labels.
    destruct (decide (model_kerneltype model = K_LINEAR)) as [Hlin|Hnl].
    - assert (Hm : model = small_model K_LINEAR None [far_point U; 0%R])
        by (simpl in Hlin; subst model; by rewrite Hlin).
      rewrite Hm. apply predict_labels_linear_far.
    - apply predict_labels_kernel_far. }
  split; [done|]. rewrite Hrun. intros (j & Hj & Heq).
  change (aget 0 [0] 0) with 0 in Heq. lia.
Qed.

(** C9 at the failing input, on the linear path: for K = 2 >= 2 classes
    and n = 1 >= 1 instance that V maps 1e10 or more away from both
    vertices, no comparison with the initial [min_dist] of 1e9 succeeds
    and the entry written into predy is the initial label 0, outside
    [1, K]. *)
Theorem predict_labels_linear_label_out_of_range :
  let U := gensvm_simplex_gen 2 [0%R; 0%R] in
  let model := small_model K_LINEAR None [far_point U; 0%R] in
  let data := small_data 0 in
  let predy := Rev1.gensvm_predict_labels_linear gensvm_simplex_gen data
      model [7] in
  2 <= model_K model ∧ 1 <= data_n data ∧
  ~ (1 <= aget 0 predy 0 <= model_K model).
Proof.
  intros U model data predy. split; [simpl; lia|]. split; [simpl; lia|].
  subst predy data model. rewrite predict_labels_linear_far.
  change (aget 0 (aset [7] 0 0) 0) with 0. lia.
Qed.

End far_instance.

(** ** The prediction functions on the doubles of the machine *)


Section machine_prediction.
Context {double : Type}.
Context (double_of : R -> double).
Context (dsub : double -> double -> double).
Context (dlt : double -> double -> bool).
Context (INFINITY : double).
Context (gensvm_simplex_gen : Z -> list double -> list double).
Context (cblas_dgemm : Z -> Z -> Z -> R -> list R -> Z -> list R -> Z -> R ->
                       list double -> Z -> list double).
Context (cblas_dnrm2 : Z -> list double -> double).
Context (beyond : double).
(** The doubles that are numbers (no NaN).  On every machine [<] is
    irreflexive and transitive, and a number that is not above the larger
    of two doubles in order is above the smaller. *)
Context (number : double -> Prop).
Hypothesis dlt_irrefl : forall a, dlt a a = false.
Hypothesis dlt_trans :
  forall a b c, dlt a b = true -> dlt b c = true -> dlt a c = true.
Hypothesis dlt_cotrans :
  forall a b c, number b -> dlt a c = true ->
    dlt a b = true ∨ dlt b c = true.






End machine_prediction.






(** ** msvmmaj_compute_sigmoid and msvmmaj_compute_poly *)

Lemma inner_product_sym (x1 x2 : list R) (m : Z) :
  inner_product x1 x2 m = inner_product x2 x1 m.
Proof.
  unfold inner_product. f_equal. apply list_fmap_ext. intros _ k _. ring.
Qed.

(** X1. msvmmaj_compute_sigmoid returns tanh(gamma * <x1, x2> + c) with
    gamma = kernelparam[0] and c = kernelparam[1], and the value does not
    depend on the order of the two vectors.  (The function is not the one
    msvmmaj_make_kernel calls for a sigmoid kernel.) *)
Theorem compute_sigmoid_symmetric (x1 x2 kernelparam : list R) (m : Z) :
  msvmmaj_compute_sigmoid x1 x2 kernelparam m
    = tanh (kernelparam.[0] * inner_product x1 x2 m + kernelparam.[1]) ∧
  msvmmaj_compute_sigmoid x1 x2 kernelparam m
    = msvmmaj_compute_sigmoid x2 x1 kernelparam m.
Proof.
  split; [apply compute_sigmoid_closed_form|].
  by rewrite !compute_sigmoid_closed_form, inner_product_sym.
Qed.

Lemma compute_poly_closed_form (x1 x2 kernelparam : list R) (m : Z) :
  msvmmaj_compute_poly x1 x2 kernelparam m
  = powerRZ (kernelparam.[0] * inner_product x1 x2 m + kernelparam.[1])
      (long_of_double kernelparam.[2]).
Proof.
  unfold msvmmaj_compute_poly, inner_product.
  rewrite (for_loop_sum (fun k => x1.[k] * x2.[k])%R).
  rewrite Z.sub_0_r. f_equal. lra.
Qed.

Lemma compute_poly_sym (x1 x2 kernelparam : list R) (m : Z) :
  msvmmaj_compute_poly x1 x2 kernelparam m
  = msvmmaj_compute_poly x2 x1 kernelparam m.
Proof. by rewrite !compute_poly_closed_form, inner_product_sym. Qed.

(** The cast of the degree drops its fractional part, toward zero: a
    degree d + f and a degree -(d + f), d a natural number and
    0 <= f < 1, act as d and as -d. *)
Lemma long_of_double_floor (d : Z) (f : R) :
  0 <= d -> (0 <= f < 1)%R -> long_of_double (IZR d + f) = d.
Proof.
  intros Hd Hf. unfold long_of_double.
  assert (H0 : (0 <= IZR d)%R) by (apply (IZR_le 0); lia).
  destruct (Rle_dec 0 (IZR d + f)) as [_|Hneg]; [|lra].
  symmetry. apply Int_part_spec. split; lra.
Qed.

Lemma long_of_double_toward_zero (d : Z) (f : R) :
  0 <= d -> (0 <= f < 1)%R -> long_of_double (- (IZR d + f)) = - d.
Proof.
  intros Hd Hf. unfold long_of_double.
  assert (H0 : (0 <= IZR d)%R) by (apply (IZR_le 0); lia).
  assert (Hint : Int_part (IZR d + f) = d).
  { symmetry. apply Int_part_spec. split; lra. }
  destruct (Rle_dec 0 (- (IZR d + f))) as [Hpos|Hneg].
  - assert (Hd0 : IZR d = 0%R) by lra. apply (eq_IZR d 0) in Hd0. subst d.
    assert (Hf0 : f = 0%R) by (change (IZR 0) with 0%R in *; lra). subst f.
    replace (- (IZR 0 + 0))%R with (IZR 0) by (change (IZR 0) with 0%R; lra).
    change (- 0) with 0. symmetry. apply Int_part_spec.
    change (IZR 0) with 0%R. split; lra.
  - rewrite Ropp_involutive, Hint. done.
Qed.

(** X2. msvmmaj_compute_poly does not depend on the order of the two
    vectors, and the degree it raises to is kernelparam[2] cut to an
    integer toward zero: with base = gamma * <x1, x2> + c, a degree d + f
    (d a natural number in the range of [int], 0 <= f < 1) gives base^d,
    and a degree -(d + f) gives 1 / base^d when the base is not 0. *)
Theorem compute_poly_symmetric_truncated_degree (x1 x2 kernelparam : list R)
    (m : Z) :
  msvmmaj_compute_poly x1 x2 kernelparam m
    = msvmmaj_compute_poly x2 x1 kernelparam m ∧
  (forall (d : Z) (f : R),
     0 <= d <= 2147483647 -> (0 <= f < 1)%R ->
     let base :=
       (kernelparam.[0] * inner_product x1 x2 m + kernelparam.[1])%R in
     (kernelparam.[2] = (IZR d + f)%R ->
      msvmmaj_compute_poly x1 x2 kernelparam m = (base ^ Z.to_nat d)%R) ∧
     (kernelparam.[2] = (- (IZR d + f))%R -> base ≠ 0%R ->
      msvmmaj_compute_poly x1 x2 kernelparam m
        = (/ base ^ Z.to_nat d)%R)).
Proof.
  split; [apply compute_poly_sym|].
  intros d f Hd Hf base. rewrite compute_poly_closed_form. fold base. split.
  - intros ->. rewrite long_of_double_floor by (done || lia).
    rewrite pow_powerRZ. by rewrite Z2Nat.id by lia.
  - intros -> _. rewrite long_of_double_toward_zero by (done || lia).
    destruct d as [|p|p]; [|done|lia].
    simpl. symmetry. apply Rinv_1.
Qed.

Lemma compute_poly_symmetric_truncated_degree_witness :
  msvmmaj_compute_poly [2%R] [3%R] [1%R; 1%R; (- (2 + 1 / 2))%R] 1
  = (/ ([1%R; 1%R; (- (2 + 1 / 2))%R].[0] * inner_product [2%R] [3%R] 1
        + [1%R; 1%R; (- (2 + 1 / 2))%R].[1]) ^ 2)%R.
Proof.
  refine (proj2 (proj2 (compute_poly_symmetric_truncated_degree [2%R] [3%R]
    [1%R; 1%R; (- (2 + 1 / 2))%R] 1) 2 (1 / 2)%R _ _) _ _).
  - lia.
  - lra.
  - reflexivity.
  - cbv -[Rplus Rmult Rminus Ropp IZR Rdiv Rinv]. lra.
Defined.

(** ** The Gram matrix for every kernel type *)

(** X3. Whatever the kernel type, the matrix K that the first loops of
    msvmmaj_make_kernel fill is symmetric on its n x n cells, each cell
    holding the value computed for the smaller and the larger of its two
    indices; for a polynomial kernel that is msvmmaj_compute_poly of rows
    i and j, and for an RBF or sigmoid descriptor the diagonal is 1. *)
Theorem make_kernel_gram_symmetric (model : MajModel) (data : MajData)
    (kernelparam : list R) (i j : Z) :
  let n := model_n model in
  let G := make_kernel_gram model data kernelparam in
  0 <= i < n -> 0 <= j < n ->
  matrix_get G n i j = matrix_get G n j i ∧
  matrix_get G n i j
    = kernel_value model data kernelparam (Z.min i j) (Z.max i j) ∧
  (model_kerneltype model = K_POLY ->
   matrix_get G n i j
     = msvmmaj_compute_poly (feature_row data i) (feature_row data j)
         kernelparam (data_m data)) ∧
  (model_kerneltype model = K_RBF ∨ model_kerneltype model = K_SIGMOID ->
   matrix_get G n i i = 1%R).
Proof.
  intros n G Hi Hj.
  assert (Hcell : forall a b, 0 <= a < n -> 0 <= b < n ->
    matrix_get G n a b
    = kernel_value model data kernelparam (Z.min a b) (Z.max a b)).
  { intros a b Ha Hb. destruct (decide (a <= b)) as [Hab|Hba].
    - rewrite Z.min_l, Z.max_r by lia.
      by apply (make_kernel_gram_cells model data kernelparam a b); lia.
    - rewrite Z.min_r, Z.max_l by lia.
      by apply (make_kernel_gram_cells model data kernelparam b a); lia. }
  split; [|split; [by apply Hcell|split]].
  - rewrite (Hcell i j), (Hcell j i) by done.
    by rewrite Z.min_comm, Z.max_comm.
  - intros Hpoly. rewrite Hcell by done. unfold kernel_value. rewrite Hpoly.
    fold (feature_row data (Z.min i j)). fold (feature_row data (Z.max i j)).
    destruct (decide (i <= j)).
    + by rewrite Z.min_l, Z.max_r by lia.
    + rewrite Z.min_r, Z.max_l by lia. apply compute_poly_sym.
  - intros Hkind. rewrite Hcell by done. rewrite Z.min_id, Z.max_id.
    unfold kernel_value.
    assert (Hone : forall x, msvmmaj_compute_rbf x x kernelparam (data_m data)
                             = 1%R).
    { intros x. rewrite compute_rbf_closed_form.
      assert (Hz : sq_dist x x (data_m data) = 0%R).
      { unfold sq_dist. generalize (seqZ 0 (data_m data)).
        induction l as [|k l IH]; [done|].
        rewrite fmap_cons. cbn [foldr]. rewrite IH. lra. }
      rewrite Hz, Rmult_0_r. apply exp_0. }
    destruct Hkind as [-> | ->]; apply Hone.
Qed.

Lemma make_kernel_gram_symmetric_witness :
  let model := pair_model K_RBF (Some 1%positive) in
  let G := make_kernel_gram model (pair_data 0 30) [1%R] in
  matrix_get G 2 1 0 = matrix_get G 2 0 1 ∧ matrix_get G 2 1 1 = 1%R.
Proof.
  intros model G.
  destruct (make_kernel_gram_symmetric model (pair_data 0 30) [1%R] 1 0
              ltac:(simpl; lia) ltac:(simpl; lia))
    as (Hsym & _ & _ & Hdiag).
  split; [exact Hsym|]. apply Hdiag. by left.
Defined.

(** ** The ways msvmmaj_make_kernel ends, and what it leaves alone *)

Lemma make_kernel_param_frame (h : gmap loc (list R)) (model : MajModel)
    (old : ptr) (l : loc) :
  l ∈ dom h -> (make_kernel_param h model old).2 !! l = h !! l.
Proof.
  intros Hl. unfold make_kernel_param, alloc.
  assert (Hne : fresh (dom h) ≠ l).
  { intros <-. by apply (is_fresh (dom h)). }
  destruct (model_kerneltype model); [done| | |]; simpl;
    rewrite ?lookup_alter_ne by done; by rewrite lookup_insert_ne.
Qed.

Section make_kernel_outcomes.
Context (dpotrf : Z -> list R -> Z * list R) (uninit : R).

(** X4. msvmmaj_make_kernel stops the process exactly when the kernel is
    not linear, the Cholesky factorisation is asked for and dpotrf reports
    a status other than 0; the exit status is then 0.  In every other case
    it returns. *)
Theorem make_kernel_exits_iff_cholesky_fails (h : gmap loc (list R))
    (model : MajModel) (data : MajData) :
  let G := make_kernel_gram model data (deref h (model_kernelparam model)) in
  let fails := model_kerneltype model ≠ K_LINEAR ∧
               model_use_cholesky model = true ∧
               (dpotrf (model_n model) G).1 ≠ 0 in
  (fails -> msvmmaj_make_kernel dpotrf uninit h model data = Exit 0) ∧
  (~ fails -> exists st, msvmmaj_make_kernel dpotrf uninit h model data = Ret st).
Proof.
  intros G fails. unfold msvmmaj_make_kernel. fold G. split.
  - intros (Hnl & Hchol & Hstatus). rewrite decide_False by done.
    rewrite Hchol. destruct (dpotrf (model_n model) G) as [status K].
    simpl in Hstatus. rewrite decide_True by done. reflexivity.
  - intros Hok. destruct (decide (model_kerneltype model = K_LINEAR)) as [|Hnl];
      [eauto|].
    assert (Hfac : exists K,
      (if model_use_cholesky model
       then let '(status, K) := dpotrf (model_n model) G in
            if decide (status ≠ 0) then Exit 0 else Ret K
       else Ret G) = Ret K).
    { destruct (model_use_cholesky model) eqn:Hchol; [|eauto].
      destruct (dpotrf (model_n model) G) as [status K] eqn:Hd.
      destruct (decide (status ≠ 0)) as [Hs|Hs]; [|eauto].
      exfalso. apply Hok. unfold fails. rewrite ?Hd. done. }
    destruct Hfac as [K ->]. outcome_simpl.
    destruct (make_kernel_param _ _ _) as [kp h']. eauto.
Qed.

(** X5. A call of msvmmaj_make_kernel that returns for a kernel that is
    not linear has changed, of the model, only m, and has left n, K, r, the
    labels y, RAW and J of the data as they were; the Cholesky flag of the
    data is the model's; and every block of the heap that was live, other
    than the old parameter array of the data, holds what it held. *)
Theorem make_kernel_frame (h h' : gmap loc (list R)) (model model' : MajModel)
    (data data' : MajData) :
  model_kerneltype model ≠ K_LINEAR ->
  msvmmaj_make_kernel dpotrf uninit h model data = Ret (h', model', data') ->
  model' = set_model_m model (model_n model) ∧
  data_n data' = data_n data ∧ data_K data' = data_K data ∧
  data_r data' = data_r data ∧ data_y data' = data_y data ∧
  data_RAW data' = data_RAW data ∧ data_J data' = data_J data ∧
  data_use_cholesky data' = model_use_cholesky model ∧
  (forall l, l ∈ dom h -> Some l ≠ data_kernelparam data ->
     h' !! l = h !! l).
Proof.
  intros Hnl. unfold msvmmaj_make_kernel. rewrite decide_False by done.
  destruct (if model_use_cholesky model then _ else _) as [K|s];
    outcome_simpl; [|discriminate].
  pose proof (make_kernel_param_frame (free h (data_kernelparam data)) model
                (data_kernelparam data)) as Hframe.
  destruct (make_kernel_param _ _ _) as [kp h1]. simpl in Hframe.
  intros [= <- <- <-]. cbn.
  do 8 (split; [done|]).
  intros l Hl Hold. rewrite Hframe.
  - apply free_lookup_ne. congruence.
  - apply elem_of_dom. rewrite free_lookup_ne by congruence.
    by apply elem_of_dom.
Qed.

End make_kernel_outcomes.

Lemma make_kernel_frame_witness :
  let h : gmap loc (list R) := {[ 1%positive := [(1 / 2)%R] ]} in
  let model := small_model K_RBF (Some 1%positive) [0%R; 0%R] in
  exists h' model' data',
    msvmmaj_make_kernel (fun _ K => (0, K)) 0%R h model (small_data 0)
      = Ret (h', model', data') ∧
    data_y data' = Some [1].
Proof.
  intros h model.
  assert (Hrun : exists h' model' data',
    msvmmaj_make_kernel (fun _ K => (0, K)) 0%R h model (small_data 0)
    = Ret (h', model', data')) by (do 3 eexists; reflexivity).
  destruct Hrun as (h' & model' & data' & Hrun).
  exists h', model', data'. split; [exact Hrun|].
  destruct (make_kernel_frame (fun _ K => (0, K)) 0%R h h' model model'
              (small_data 0) data' ltac:(discriminate) Hrun)
    as (_ & _ & _ & _ & Hy & _).
  exact Hy.
Defined.

(** ** gensvm_prediction_perf: range and perfect score *)

Lemma hits_cons (a b : Z) (y predy : list Z) :
  hits (a :: y) (b :: predy)
  = hits y predy + (if decide (a = b) then 1 else 0).
Proof.
  unfold hits. cbn [zip zip_with]. rewrite filter_cons. simpl.
  case_decide; simpl; lia.
Qed.

Lemma hits_range (y predy : list Z) :
  length y = length predy -> 0 <= hits y predy <= Z.of_nat (length y).
Proof.
  revert predy. induction y as [|a y IH]; intros [|b predy] Hlen;
    try discriminate.
  - unfold hits. simpl. lia.
  - rewrite hits_cons. simpl in Hlen. injection Hlen as Hlen.
    specialize (IH predy Hlen). simpl length. case_decide; lia.
Qed.

Lemma hits_all_iff (y predy : list Z) :
  length y = length predy ->
  hits y predy = Z.of_nat (length y) <-> y = predy.
Proof.
  revert predy. induction y as [|a y IH]; intros [|b predy] Hlen;
    try discriminate.
  - done.
  - simpl in Hlen. injection Hlen as Hlen. rewrite hits_cons.
    pose proof (hits_range y predy Hlen) as Hr. simpl length.
    specialize (IH predy Hlen). case_decide as Hab.
    + subst b. split.
      * intros Hh. f_equal. apply IH. lia.
      * intros [= Heq]. apply IH in Heq. lia.
    + split; [lia|]. intros [= Heq _]. done.
Qed.

(** X6. For a labeled data set of n >= 1 instances and a prediction
    vector of that length, gensvm_prediction_perf lies between 0 and 100,
    and it is 100 exactly when every prediction equals its label. *)
Theorem prediction_perf_range (data : GenData) (y predy : list Z) :
  1 <= data_n data ->
  data_y data = Some y ->
  Z.of_nat (length y) = data_n data ->
  Z.of_nat (length predy) = data_n data ->
  (0 <= gensvm_prediction_perf data predy <= 100)%R ∧
  (gensvm_prediction_perf data predy = 100%R <-> predy = y).
Proof.
  intros Hn Hy Hly Hlp. unfold gensvm_prediction_perf. rewrite Hy. simpl.
  rewrite perf_loop_hits by done.
  assert (Hlen : length y = length predy) by lia.
  pose proof (hits_range y predy Hlen) as Hr. rewrite Hly in Hr.
  assert (Hnpos : (0 < IZR (data_n data))%R) by (apply (IZR_lt 0); lia).
  assert (Hh0 : (0 <= IZR (hits y predy))%R) by (apply (IZR_le 0); lia).
  assert (Hhn : (IZR (hits y predy) <= IZR (data_n data))%R)
    by (apply IZR_le; lia).
  assert (Hq : (0 <= IZR (hits y predy) / IZR (data_n data) <= 1)%R).
  { split.
    - apply Rmult_le_pos; [done|]. left. by apply Rinv_0_lt_compat.
    - apply Rmult_le_reg_r with (IZR (data_n data)); [done|].
      replace (IZR (hits y predy) / IZR (data_n data) * IZR (data_n data))%R
        with (IZR (hits y predy)) by (field; lra).
      lra. }
  split; [lra|]. split.
  - intros Hfull. symmetry. apply hits_all_iff; [done|].
    rewrite Hly. apply eq_IZR.
    assert (Hone : (IZR (hits y predy) / IZR (data_n data) = 1)%R) by lra.
    apply (f_equal (fun x => x * IZR (data_n data))%R) in Hone.
    replace (IZR (hits y predy) / IZR (data_n data) * IZR (data_n data))%R
      with (IZR (hits y predy)) in Hone by (field; lra).
    lra.
  - intros ->. assert (Hall : hits y y = Z.of_nat (length y))
      by (by apply hits_all_iff).
    rewrite Hall, Hly. field. lra.
Qed.

Lemma prediction_perf_range_witness :
  (0 <= gensvm_prediction_perf (small_data 0) [2%Z] <= 100)%R.
Proof.
  refine (proj1 (prediction_perf_range (small_data 0) [1] [2] _ _ _ _));
    simpl; done || lia.
Defined.

(** ** gensvm_init_task, gensvm_copy_task and gensvm_free_task together *)

Lemma memory_eq (a b : memory) :
  mem_doubles a = mem_doubles b -> mem_tasks a = mem_tasks b ->
  mem_data a = mem_data b -> a = b.
Proof. destruct a, b. simpl. by intros -> -> ->. Qed.

(** X9. What the unit test test_init_free_task runs: a task made by
    gensvm_init_task and then freed leaves the memory exactly as it was
    before. *)
Theorem init_then_free_task_restores_memory (mem : memory) :
  let '(t, mem') := gensvm_init_task mem in
  gensvm_free_task mem' t = mem.
Proof.
  unfold gensvm_init_task, gensvm_free_task.
  cbn [mem_tasks mem_doubles mem_data]. rewrite lookup_insert_eq.
  apply memory_eq; cbn [mem_tasks mem_doubles mem_data free task_kernelparam];
    [done| |done].
  rewrite delete_insert_eq. apply delete_id.
  apply not_elem_of_dom_1, is_fresh.
Qed.

(** X10. A copy made by gensvm_copy_task and then freed by
    gensvm_free_task leaves the memory exactly as it was before the copy:
    the copy's parameter array is released, the parameters of the original
    and the shared data sets are not. *)
Theorem copy_then_free_task_restores_memory (uninit : R) (mem : memory)
    (t : GenTask) :
  kernelparam_ok (mem_doubles mem) (task_kerneltype t) (task_kernelparam t) ->
  let '(nt, mem') := gensvm_copy_task uninit mem t in
  gensvm_free_task mem' nt = mem.
Proof.
  intros Hok. unfold gensvm_copy_task, gensvm_init_task, gensvm_free_task.
  cbn [mem_tasks mem_doubles mem_data].
  assert (Hkp : exists kp,
    copy_kernelparam uninit (mem_doubles mem) t
      = (kp, match kp with
             | Some l => <[l := deref (mem_doubles mem) (task_kernelparam t)]>
                           (mem_doubles mem)
             | None => mem_doubles mem
             end) ∧
    match kp with Some l => l ∉ dom (mem_doubles mem) | None => True end).
  { destruct (decide (task_kerneltype t = K_LINEAR)) as [Hlin|Hnl].
    - exists None. unfold copy_kernelparam. by rewrite Hlin.
    - destruct Hok as [Hlin|(l0 & a & Hp & Hl0 & Hlen)]; [done|].
      exists (Some (fresh (dom (mem_doubles mem)))).
      rewrite (copy_kernelparam_fresh uninit _ t l0 a) by done.
      rewrite Hp, (deref_Some _ _ _ Hl0). split; [done|apply is_fresh]. }
  destruct Hkp as (kp & -> & Hfresh).
  cbn [mem_tasks mem_doubles mem_data].
  rewrite lookup_alter_eq, lookup_insert_eq. cbn [fmap option_fmap option_map].
  apply memory_eq; cbn [mem_tasks mem_doubles mem_data task_kernelparam].
  - destruct kp as [l|]; [|done]. cbn [free].
    rewrite delete_insert_eq. apply delete_id. by apply not_elem_of_dom_1.
  - rewrite delete_alter_eq, delete_insert_eq.
    apply delete_id. apply not_elem_of_dom_1, is_fresh.
  - done.
Qed.

Lemma copy_then_free_task_restores_memory_witness :
  let mem := small_memory [(1 / 4)%R; 1%R] in
  let '(nt, mem') := gensvm_copy_task 0%R mem (small_task K_SIGMOID) in
  gensvm_free_task mem' nt = mem.
Proof.
  intros mem.
  refine (copy_then_free_task_restores_memory 0%R mem (small_task K_SIGMOID) _).
  right. exists 1%positive, [(1 / 4)%R; 1%R]. repeat split; reflexivity.
Defined.

(** ** gensvm_task_to_model *)

(** X11. gensvm_task_to_model gives the model the weight_idx, epsilon, p,
    kappa, lambda and kernel type of the task, and a parameter array of its
    own (NULL for a linear kernel, otherwise a block that was not live,
    holding the task's parameters); K, n, m, the weight and work arrays and
    the other fields of the model are as before, and so is every block that
    was live, the model's former parameter array included, which is not
    freed. *)
Theorem task_to_model_spec (uninit : R) (h h' : gmap loc (list R))
    (task : GenTask) (model model' : GenModel) :
  kernelparam_ok h (task_kerneltype task) (task_kernelparam task) ->
  gensvm_task_to_model uninit h task model = (h', model') ->
  fit_parameters h' model'
    = (task_weight_idx task, task_epsilon task, task_p task,
       task_kappa task, task_lambda task, task_kerneltype task,
       if decide (task_kerneltype task = K_LINEAR) then []
       else deref h (task_kernelparam task)) ∧
  (task_kerneltype task = K_LINEAR -> model_kernelparam model' = None) ∧
  (task_kerneltype task ≠ K_LINEAR ->
   exists l, model_kernelparam model' = Some l ∧ (l ∉ dom h)) ∧
  (forall l, l ∈ dom h -> h' !! l = h !! l) ∧
  model_K model' = model_K model ∧ model_n model' = model_n model ∧
  model_m model' = model_m model ∧
  model_W model' = model_W model ∧ model_t model' = model_t model ∧
  model_V model' = model_V model ∧ model_Vbar model' = model_Vbar model ∧
  model_U model' = model_U model ∧ model_UU model' = model_UU model ∧
  model_Q model' = model_Q model ∧ model_H model' = model_H model ∧
  model_R model' = model_R model ∧ model_rho model' = model_rho model ∧
  model_training_error model' = model_training_error model ∧
  model_data_file model' = model_data_file model ∧
  model_use_cholesky model' = model_use_cholesky model.
Proof.
  intros Hok. unfold gensvm_task_to_model.
  destruct (decide (task_kerneltype task = K_LINEAR)) as [Hlin|Hnl].
  - unfold copy_kernelparam. rewrite Hlin. intros [= <- <-].
    unfold fit_parameters.
    cbn [model_weight_idx model_epsilon model_p model_kappa model_lambda
         model_kerneltype model_kernelparam model_K model_n model_m model_W
         model_t model_V model_Vbar model_U model_UU model_Q model_H model_R
         model_rho model_training_error model_data_file model_use_cholesky].
    repeat split; try done.
  - destruct Hok as [Hlin|(l0 & a & Hp & Hl0 & Hlen)]; [done|].
    rewrite (copy_kernelparam_fresh uninit _ task l0 a) by done.
    intros [= <- <-]. unfold fit_parameters.
    cbn [model_weight_idx model_epsilon model_p model_kappa model_lambda
         model_kerneltype model_kernelparam model_K model_n model_m model_W
         model_t model_V model_Vbar model_U model_UU model_Q model_H model_R
         model_rho model_training_error model_data_file model_use_cholesky].
    rewrite deref_insert_eq, Hp, (deref_Some _ _ _ Hl0).
    split; [done|]. split; [done|].
    split. { intros _. eexists. split; [done|]. apply is_fresh. }
    split.
    { intros l Hl. rewrite lookup_insert_ne; [done|].
      intros <-. by apply (is_fresh (dom h)). }
    repeat split; done.
Qed.

Lemma task_to_model_spec_witness :
  let h : gmap loc (list R) := {[ 1%positive := [(1 / 4)%R; 1%R] ]} in
  let model := small_model K_LINEAR None [0%R; 0%R] in
  let '(h', model') :=
    gensvm_task_to_model 0%R h (small_task K_SIGMOID) model in
  model_K model' = 2.
Proof.
  intros h model.
  destruct (gensvm_task_to_model 0%R h (small_task K_SIGMOID) model)
    as [h' model'] eqn:Hrun.
  refine (proj1 (proj2 (proj2 (proj2 (proj2
    (task_to_model_spec 0%R h h' (small_task K_SIGMOID) model model' _
       Hrun)))))).
  right. exists 1%positive, [(1 / 4)%R; 1%R]. repeat split; reflexivity.
Defined.

Lemma copy_task_deep_copy_facts (uninit : R) (mem : memory) (t : GenTask)
    (nt : loc) (mem' : memory) :
  kernelparam_ok (mem_doubles mem) (task_kerneltype t) (task_kernelparam t) ->
  gensvm_copy_task uninit mem t = (nt, mem') ->
  exists c, mem_tasks mem' !! nt = Some c ∧
    task_kerneltype c = task_kerneltype t ∧
    task_weight_idx c = task_weight_idx t ∧
    task_epsilon c = task_epsilon t ∧ task_p c = task_p t ∧
    task_kappa c = task_kappa t ∧ task_lambda c = task_lambda t ∧
    kernelparam_ok (mem_doubles mem') (task_kerneltype c)
      (task_kernelparam c) ∧
    (if decide (task_kerneltype t = K_LINEAR) then []
     else deref (mem_doubles mem') (task_kernelparam c))
    = (if decide (task_kerneltype t = K_LINEAR) then []
       else deref (mem_doubles mem) (task_kernelparam t)).
Proof.
  intros Hok Hrun. unfold gensvm_copy_task, gensvm_init_task in Hrun.
  cbn [mem_doubles mem_tasks mem_data] in Hrun.
  destruct (copy_kernelparam uninit (mem_doubles mem) t) as [kp h] eqn:Hkp.
  injection Hrun as <- <-. cbn [mem_doubles mem_tasks mem_data].
  eexists. split.
  { rewrite lookup_alter_eq, lookup_insert_eq. reflexivity. }
  cbn [task_kerneltype task_weight_idx task_epsilon task_p task_kappa
       task_lambda task_kernelparam].
  do 6 (split; [done|]).
  destruct (decide (task_kerneltype t = K_LINEAR)) as [Hlin|Hnl].
  - split; [by left|done].
  - destruct Hok as [Hlin|(l0 & a & Hp & Hl0 & Hlen)]; [done|].
    rewrite (copy_kernelparam_fresh uninit _ t l0 a) in Hkp by done.
    injection Hkp as <- <-. split.
    + right. exists (fresh (dom (mem_doubles mem))), a.
      split; [done|]. split; [apply lookup_insert_eq|done].
    + rewrite deref_insert_eq, Hp, (deref_Some _ _ _ Hl0). done.
Qed.

(** X12. Passing a task through gensvm_copy_task does not change what
    gensvm_task_to_model makes of it: the model built from the copy has the
    same weight_idx, epsilon, p, kappa, lambda, kernel type and kernel
    parameter values as the model built from the original. *)
Theorem task_to_model_of_copy (uninit : R) (mem : memory) (t : GenTask)
    (model : GenModel) :
  kernelparam_ok (mem_doubles mem) (task_kerneltype t) (task_kernelparam t) ->
  let '(nt, mem') := gensvm_copy_task uninit mem t in
  exists c, mem_tasks mem' !! nt = Some c ∧
    let '(h1, model1) :=
      gensvm_task_to_model uninit (mem_doubles mem') c model in
    let '(h0, model0) :=
      gensvm_task_to_model uninit (mem_doubles mem) t model in
    fit_parameters h1 model1 = fit_parameters h0 model0.
Proof.
  intros Hok.
  destruct (gensvm_copy_task uninit mem t) as [nt mem'] eqn:Hcopy.
  destruct (copy_task_deep_copy_facts uninit mem t nt mem' Hok Hcopy)
    as (c & Hc & Hkt & Hw & He & Hp & Hk & Hl & Hokc & Hparams).
  exists c. split; [done|].
  destruct (gensvm_task_to_model uninit (mem_doubles mem') c model)
    as [h1 model1] eqn:H1.
  destruct (gensvm_task_to_model uninit (mem_doubles mem) t model)
    as [h0 model0] eqn:H0.
  destruct (task_to_model_spec uninit _ _ c model model1 Hokc H1) as (-> & _).
  destruct (task_to_model_spec uninit _ _ t model model0 Hok H0) as (-> & _).
  rewrite Hkt, Hw, He, Hp, Hk, Hl, Hparams. done.
Qed.

Lemma task_to_model_of_copy_witness :
  let mem := small_memory [(1 / 4)%R; 1%R] in
  let model := small_model K_LINEAR None [0%R; 0%R] in
  let '(nt, mem') := gensvm_copy_task 0%R mem (small_task K_SIGMOID) in
  exists c, mem_tasks mem' !! nt = Some c ∧
    let '(h1, model1) :=
      gensvm_task_to_model 0%R (mem_doubles mem') c model in
    let '(h0, model0) :=
      gensvm_task_to_model 0%R (mem_doubles mem) (small_task K_SIGMOID)
        model in
    fit_parameters h1 model1 = fit_parameters h0 model0.
Proof.
  intros mem model.
  refine (task_to_model_of_copy 0%R mem (small_task K_SIGMOID) model _).
  right. exists 1%positive, [(1 / 4)%R; 1%R]. repeat split; reflexivity.
Defined.

(** ** msvmmaj_allocate_model and msvmmaj_reallocate_model *)

Lemma all_zero_replicate (k : nat) : all_zero (replicate k 0%R).
Proof. unfold all_zero. apply Forall_replicate. done. Qed.

Lemma prefix_kept_refl (a : list R) : prefix_kept a a.
Proof. by intros p _ _. Qed.

Lemma prefix_kept_resize (a : list R) (k : nat) (x : R) :
  prefix_kept a (resize k x a).
Proof.
  intros p Hp Hp'. rewrite length_resize in Hp'. by apply lookup_resize.
Qed.

Lemma prefix_kept_trans_resize (a b : list R) (k : nat) (x : R) :
  prefix_kept a b -> length b = length a -> prefix_kept a (resize k x b).
Proof.
  intros Hab Hlen p Hp Hp'. rewrite length_resize in Hp'.
  rewrite lookup_resize by lia. apply Hab; lia.
Qed.

Section allocate_facts.
Context (can_alloc : Z -> bool) (uninit : R).

(** X13. msvmmaj_allocate_model returns exactly when each of its ten
    allocations is served, and stops the process with status 1 as soon as
    one is refused.  When it returns, every array of the model has the
    size that K, n and m call for and all its cells are zero, and no other
    field of the model has changed; with m >= 0 and K >= 1 the augmented
    matrix V then has as many cells as W and t together. *)
Theorem allocate_model_sized_zero (model : MajModel) :
  (Forall (fun count => can_alloc (count * 8) = true)
     (allocate_requests model) ->
   exists model',
     msvmmaj_allocate_model can_alloc model = Ret model' ∧
     model_sized model' ∧
     all_zero (model_W model') ∧ all_zero (model_t model') ∧
     all_zero (model_V model') ∧ all_zero (model_Vbar model') ∧
     all_zero (model_U model') ∧ all_zero (model_UU model') ∧
     all_zero (model_Q model') ∧ all_zero (model_H model') ∧
     all_zero (model_R model') ∧ all_zero (model_rho model') ∧
     model_weight_idx model' = model_weight_idx model ∧
     model_K model' = model_K model ∧ model_n model' = model_n model ∧
     model_m model' = model_m model ∧
     model_epsilon model' = model_epsilon model ∧
     model_p model' = model_p model ∧
     model_kappa model' = model_kappa model ∧
     model_lambda model' = model_lambda model ∧
     model_training_error model' = model_training_error model ∧
     model_data_file model' = model_data_file model ∧
     model_kerneltype model' = model_kerneltype model ∧
     model_kernelparam model' = model_kernelparam model ∧
     model_use_cholesky model' = model_use_cholesky model ∧
     (0 <= model_m model -> 1 <= model_K model ->
      length (model_V model')
      = (length (model_W model') + length (model_t model'))%nat)) ∧
  (Exists (fun count => can_alloc (count * 8) = false)
     (allocate_requests model) ->
   msvmmaj_allocate_model can_alloc model = Exit 1).
Proof.
  unfold msvmmaj_allocate_model, calloc_or_exit, allocate_requests.
  set (n := model_n model). set (m := model_m model). set (K := model_K model).
  split.
  - intros Hall. rewrite !Forall_cons in Hall.
    destruct Hall as (-> & -> & -> & _ & -> & -> & -> & _ & _ & -> & _).
    outcome_simpl. eexists. split; [reflexivity|].
    unfold model_sized. cbn. fold n m K. rewrite !length_replicate.
    split; [done|]. do 10 (split; [apply all_zero_replicate|]).
    do 13 (split; [done|]). intros Hm HK. nia.
  - intros Hsome.
    destruct (can_alloc (m * (K - 1) * 8)) eqn:HW; outcome_simpl; [|done].
    destruct (can_alloc ((K - 1) * 8)) eqn:Ht; outcome_simpl; [|done].
    destruct (can_alloc ((m + 1) * (K - 1) * 8)) eqn:HV; outcome_simpl;
      [|done].
    destruct (can_alloc (K * (K - 1) * 8)) eqn:HU; outcome_simpl; [|done].
    destruct (can_alloc (n * K * (K - 1) * 8)) eqn:HUU; outcome_simpl;
      [|done].
    destruct (can_alloc (n * K * 8)) eqn:HQ; outcome_simpl; [|done].
    destruct (can_alloc (n * 8)) eqn:Hrho; outcome_simpl; [|done].
    exfalso. rewrite !Exists_cons, Exists_nil in Hsome.
    destruct Hsome as [?|[?|[?|[?|[?|[?|[?|[?|[?|[?|[]]]]]]]]]]];
      congruence.
Qed.

Lemma reallocate_n_inv (model model' : MajModel) (n : Z) :
  reallocate_n can_alloc uninit model n = Ret model' ->
  let K := model_K model in
  model_n model' = n ∧
  model_UU model' = resize (Z.to_nat (n * K * (K - 1))) uninit (model_UU model) ∧
  model_Q model' = resize (Z.to_nat (n * K)) uninit (model_Q model) ∧
  model_H model' = resize (Z.to_nat (n * K)) uninit (model_H model) ∧
  model_R model' = resize (Z.to_nat (n * K)) uninit (model_R model) ∧
  model_rho model' = resize (Z.to_nat n) uninit (model_rho model) ∧
  same_weights_and_parameters model' model.
Proof.
  intros Hrun K. unfold reallocate_n, realloc_or_exit in Hrun. fold K in Hrun.
  destruct (can_alloc (n * K * (K - 1) * 8)); outcome_simpl; [|done].
  destruct (can_alloc (n * K * 8)); outcome_simpl; [|done].
  destruct (can_alloc (n * 8)); outcome_simpl; [|done].
  injection Hrun as <-. unfold same_weights_and_parameters. cbn. done.
Qed.

Lemma reallocate_m_inv (model model' : MajModel) (m : Z) :
  reallocate_m can_alloc uninit model m = Ret model' ->
  let K := model_K model in
  model_m model' = m ∧
  model_W model' = resize (Z.to_nat (m * (K - 1))) uninit (model_W model) ∧
  model_V model'
    = resize (Z.to_nat ((m + 1) * (K - 1))) uninit (model_V model) ∧
  model_Vbar model'
    = resize (Z.to_nat ((m + 1) * (K - 1))) uninit (model_Vbar model) ∧
  model_n model' = model_n model ∧ model_K model' = model_K model ∧
  model_t model' = model_t model ∧ model_U model' = model_U model ∧
  model_UU model' = model_UU model ∧ model_Q model' = model_Q model ∧
  model_H model' = model_H model ∧ model_R model' = model_R model ∧
  model_rho model' = model_rho model.
Proof.
  intros Hrun K. unfold reallocate_m, realloc_or_exit in Hrun. fold K in Hrun.
  destruct (can_alloc (m * (K - 1) * 8)); outcome_simpl; [|done].
  destruct (can_alloc ((m + 1) * (K - 1) * 8)); outcome_simpl; [|done].
  injection Hrun as <-. cbn. done.
Qed.

(** The two branches of msvmmaj_reallocate_model one after the other. *)
Lemma reallocate_model_inv (model model' : MajModel) (n m : Z) :
  msvmmaj_reallocate_model can_alloc uninit model n m = Ret model' ->
  exists model1,
    (model1 = model ∧ model_n model = n ∨
     reallocate_n can_alloc uninit model n = Ret model1) ∧
    (model' = model1 ∧ model_m model1 = m ∨
     reallocate_m can_alloc uninit model1 m = Ret model').
Proof.
  unfold msvmmaj_reallocate_model.
  destruct (decide (model_n model = n ∧ model_m model = m)) as [[Hn Hm]|Hne].
  { intros [= <-]. exists model. split; left; done. }
  destruct (decide (model_n model ≠ n)) as [Hn|Hn].
  - destruct (reallocate_n can_alloc uninit model n) as [model1|s] eqn:H1;
      outcome_simpl; [|done].
    intros Hrun. exists model1. split; [by right|].
    destruct (decide (model_m model1 ≠ m)) as [Hm|Hm]; [by right|].
    left. injection Hrun as <-. split; [done|]. by destruct (decide (model_m model1 = m)).
  - outcome_simpl. intros Hrun. exists model.
    split; [left; split; [done|]; by destruct (decide (model_n model = n))|].
    destruct (decide (model_m model ≠ m)) as [Hm|Hm]; [by right|].
    left. injection Hrun as <-. split; [done|]. by destruct (decide (model_m model = m)).
Qed.

(** X14. msvmmaj_reallocate_model keeps the model well sized: if the
    arrays had the sizes that K and the old n and m call for, then after a
    call that returns n and m are the new values, K is unchanged and every
    array has the size that K and the new n and m call for. *)
Theorem reallocate_model_keeps_sized (model model' : MajModel) (n m : Z) :
  model_sized model ->
  msvmmaj_reallocate_model can_alloc uninit model n m = Ret model' ->
  model_n model' = n ∧ model_m model' = m ∧
  model_K model' = model_K model ∧ model_sized model'.
Proof.
  intros Hsized Hrun.
  destruct (reallocate_model_inv model model' n m Hrun)
    as (model1 & Hfirst & Hsecond).
  assert (H1 : model_n model1 = n ∧ model_m model1 = model_m model ∧
               model_K model1 = model_K model ∧ model_sized model1).
  { destruct Hfirst as [(-> & Hn)|Hre]; [done|].
    destruct (reallocate_n_inv model model1 n Hre)
      as (Hn & HUU & HQ & HH & HR & Hrho & Hsame).
    unfold same_weights_and_parameters in Hsame.
    destruct Hsame as (HW & Ht & HV & HVb & HU & _ & HK & Hm & _).
    split; [done|]. split; [done|]. split; [done|].
    unfold model_sized in *. rewrite Hn, Hm, HK, HW, Ht, HV, HVb, HU.
    rewrite HUU, HQ, HH, HR, Hrho, !length_resize.
    destruct Hsized as (? & ? & ? & ? & ? & _). done. }
  destruct H1 as (Hn1 & Hm1 & HK1 & Hs1).
  destruct Hsecond as [(-> & Hm)|Hre].
  - split; [done|]. split; [done|]. done.
  - destruct (reallocate_m_inv model1 model' m Hre)
      as (Hm & HW & HV & HVb & Hn & HK & Ht & HU & HUU & HQ & HH & HR & Hrho).
    split; [congruence|]. split; [done|]. split; [congruence|].
    unfold model_sized in *. rewrite Hn, Hm, HK, Ht, HU, HUU, HQ, HH, HR, Hrho.
    rewrite HW, HV, HVb, !length_resize.
    destruct Hs1 as (_ & ? & _ & _ & ? & ? & ? & ? & ? & ?). done.
Qed.

(** X15. msvmmaj_reallocate_model never loses leading contents: after a
    call that returns, t and U are what they were and each of W, V, Vbar,
    UU, Q, H, R and rho holds, on the cells the old and the new array both
    have, what it held.  The row length K-1 of V and W does not change, so
    these cells are their leading rows. *)
Theorem reallocate_model_keeps_contents (model model' : MajModel) (n m : Z) :
  msvmmaj_reallocate_model can_alloc uninit model n m = Ret model' ->
  model_t model' = model_t model ∧ model_U model' = model_U model ∧
  prefix_kept (model_W model) (model_W model') ∧
  prefix_kept (model_V model) (model_V model') ∧
  prefix_kept (model_Vbar model) (model_Vbar model') ∧
  prefix_kept (model_UU model) (model_UU model') ∧
  prefix_kept (model_Q model) (model_Q model') ∧
  prefix_kept (model_H model) (model_H model') ∧
  prefix_kept (model_R model) (model_R model') ∧
  prefix_kept (model_rho model) (model_rho model').
Proof.
  intros Hrun.
  destruct (reallocate_model_inv model model' n m Hrun)
    as (model1 & Hfirst & Hsecond).
  assert (H1 : model_t model1 = model_t model ∧
    model_U model1 = model_U model ∧
    model_W model1 = model_W model ∧ model_V model1 = model_V model ∧
    model_Vbar model1 = model_Vbar model ∧
    prefix_kept (model_UU model) (model_UU model1) ∧
    prefix_kept (model_Q model) (model_Q model1) ∧
    prefix_kept (model_H model) (model_H model1) ∧
    prefix_kept (model_R model) (model_R model1) ∧
    prefix_kept (model_rho model) (model_rho model1)).
  { destruct Hfirst as [(-> & Hn)|Hre].
    - repeat split; try done; apply prefix_kept_refl.
    - destruct (reallocate_n_inv model model1 n Hre)
        as (Hn & -> & -> & -> & -> & -> & Hsame).
      unfold same_weights_and_parameters in Hsame.
      destruct Hsame as (HW & Ht & HV & HVb & HU & _).
      repeat split; try done; apply prefix_kept_resize. }
  destruct H1 as (Ht1 & HU1 & HW1 & HV1 & HVb1 & HUU1 & HQ1 & HH1 & HR1 & Hr1).
  destruct Hsecond as [(-> & Hm)|Hre].
  - rewrite HW1, HV1, HVb1. repeat split; try done; apply prefix_kept_refl.
  - destruct (reallocate_m_inv model1 model' m Hre)
      as (Hm & -> & -> & -> & Hn & HK & -> & -> & -> & -> & -> & -> & ->).
    rewrite HW1, HV1, HVb1.
    repeat split; try done; apply prefix_kept_resize.
Qed.

End allocate_facts.

Lemma allocate_model_sized_zero_witness :
  msvmmaj_allocate_model (fun size => size <=? 8)
    (small_model K_LINEAR None [0%R; 0%R]) = Exit 1.
Proof.
  apply (proj2 (allocate_model_sized_zero (fun size => size <=? 8)
                  (small_model K_LINEAR None [0%R; 0%R]))).
  do 2 apply Exists_cons_tl. apply Exists_cons_hd. reflexivity.
Defined.

Lemma reallocate_model_keeps_sized_witness :
  exists model',
    msvmmaj_reallocate_model (fun _ => true) 0%R
      (small_model K_LINEAR None [0%R; 0%R]) 3 2 = Ret model' ∧
    model_n model' = 3 ∧ model_m model' = 2.
Proof.
  assert (Hrun : exists model',
    msvmmaj_reallocate_model (fun _ => true) 0%R
      (small_model K_LINEAR None [0%R; 0%R]) 3 2 = Ret model')
    by (eexists; reflexivity).
  destruct Hrun as [model' Hrun]. exists model'. split; [exact Hrun|].
  destruct (reallocate_model_keeps_sized (fun _ => true) 0%R
              (small_model K_LINEAR None [0%R; 0%R]) model' 3 2) as (Hn & Hm & _).
  - unfold model_sized. simpl. done.
  - exact Hrun.
  - done.
Defined.

Lemma reallocate_model_keeps_contents_witness :
  exists model',
    msvmmaj_reallocate_model (fun _ => true) 0%R
      (small_model K_LINEAR None [5%R; 6%R]) 3 2 = Ret model' ∧
    model_t model' = [0%R].
Proof.
  assert (Hrun : exists model',
    msvmmaj_reallocate_model (fun _ => true) 0%R
      (small_model K_LINEAR None [5%R; 6%R]) 3 2 = Ret model')
    by (eexists; reflexivity).
  destruct Hrun as [model' Hrun]. exists model'. split; [exact Hrun|].
  exact (proj1 (reallocate_model_keeps_contents (fun _ => true) 0%R
                  (small_model K_LINEAR None [5%R; 6%R]) model' 3 2 Hrun)).
Defined.

(** ** msvmmaj_check_argv and msvmmaj_check_argv_eq *)

Lemma starts_with_iff (needle hay : string) :
  starts_with needle hay = true <->
  exists after, hay = (needle ++ after)%string.
Proof.
  revert hay. induction needle as [|a needle IH]; intros hay.
  - simpl. split; [intros _; by exists hay|done].
  - destruct hay as [|b hay]; simpl.
    + split; [done|]. intros (after & Heq). discriminate.
    + destruct (Ascii.eqb a b) eqn:Hab.
      * apply Ascii.eqb_eq in Hab as ->. rewrite IH. split.
        -- intros (after & ->). by exists after.
        -- intros (after & [= ->]). by exists after.
      * apply Ascii.eqb_neq in Hab. split; [done|].
        intros (after & [= -> _]). done.
Qed.

Lemma strstr_found_iff (hay needle : string) :
  strstr_found hay needle = true <-> occurs_in needle hay.
Proof.
  unfold occurs_in. induction hay as [|b hay IH]; simpl.
  - rewrite orb_false_r, starts_with_iff. split.
    + intros (after & ->). by exists EmptyString, after.
    + intros ([|c before] & after & Heq); [by exists after|discriminate].
  - rewrite orb_true_iff, starts_with_iff, IH. split.
    + intros [(after & ->)|(before & after & ->)].
      * by exists EmptyString, after.
      * by exists (String b before), after.
    + intros ([|c before] & after & Heq).
      * left. by exists after.
      * right. injection Heq as -> ->. by exists before, after.
Qed.

Lemma string_app_empty (s : string) : (s ++ "")%string = s.
Proof.
  induction s as [|a s IH]; [done|].
  change (String a (s ++ "")%string = String a s). f_equal. exact IH.
Qed.

(** The search loop with [break]: 0 when no index of the range passes the
    test, the first index that passes it otherwise. *)
Lemma first_match_loop (test : Z -> bool) (argc : Z) :
  let r := fst (for_loop 1 argc (fun i '(arg_str, broken) =>
    if (broken : bool) then (arg_str, broken)
    else if test i then (i, true)
    else (arg_str, broken)) (0, false)) in
  (r = 0 ∧ forall i, 1 <= i < argc -> test i = false) ∨
  (1 <= r < argc ∧ test r = true ∧ forall i, 1 <= i < r -> test i = false).
Proof.
  intros r. subst r.
  destruct (decide (1 <= argc)) as [Hle|Hgt].
  2:{ rewrite for_loop_nil by lia. left. split; [done|]. intros i Hi. lia. }
  set (body := fun (i : Z) '(arg_str, broken) =>
    if (broken : bool) then (arg_str, broken)
    else if test i then (i, true)
    else (arg_str, broken)).
  assert (Hinv : let st := for_loop 1 argc body (0, false) in
    (st = (0, false) ∧ forall i, 1 <= i < argc -> test i = false) ∨
    (exists r, st = (r, true) ∧ 1 <= r < argc ∧ test r = true ∧
       forall i, 1 <= i < r -> test i = false)).
  { apply (for_loop_inv (fun k st =>
      (st = (0, false) ∧ forall i, 1 <= i < k -> test i = false) ∨
      (exists r, st = (r, true) ∧ 1 <= r < k ∧ test r = true ∧
         forall i, 1 <= i < r -> test i = false))); [done| |].
    - left. split; [done|]. intros i Hi. lia.
    - intros k st Hk [(-> & Hnone)|(r & -> & Hr & Htest & Hfirst)];
        unfold body.
      + destruct (test k) eqn:Hk'.
        * right. exists k. split; [done|]. split; [lia|]. split; [done|].
          intros i Hi. apply Hnone. lia.
        * left. split; [done|]. intros i Hi.
          destruct (decide (i = k)) as [->|Hik]; [done|]. apply Hnone. lia.
      + right. exists r. split; [done|]. split; [lia|]. done. }
  destruct Hinv as [(-> & Hnone)|(r & -> & Hr & Htest & Hfirst)].
  - by left.
  - right. done.
Qed.

(** X16. msvmmaj_check_argv_eq returns the index of the first argument
    after the program name that is equal to [str], and 0 when there is
    none; argv[0] is never looked at. *)
Theorem check_argv_eq_first_equal (argc : Z) (argv : list string)
    (str : string) :
  let r := msvmmaj_check_argv_eq argc argv str in
  (r = 0 ∧ forall i, 1 <= i < argc -> aget EmptyString argv i ≠ str) ∨
  (1 <= r < argc ∧ aget EmptyString argv r = str ∧
   forall i, 1 <= i < r -> aget EmptyString argv i ≠ str).
Proof.
  intros r. subst r. unfold msvmmaj_check_argv_eq.
  destruct (first_match_loop
              (fun i => String.eqb (aget EmptyString argv i) str) argc)
    as [(-> & Hnone)|(Hr & Htest & Hfirst)].
  - left. split; [done|]. intros i Hi. apply String.eqb_neq. by apply Hnone.
  - right. split; [done|]. split; [by apply String.eqb_eq|].
    intros i Hi. apply String.eqb_neq. by apply Hfirst.
Qed.

(** X17. msvmmaj_check_argv returns the index of the first argument after
    the program name in which [str] occurs, and 0 when there is none.  An
    argument equal to [str] contains it, so when msvmmaj_check_argv_eq
    finds an index, msvmmaj_check_argv finds one that is not larger. *)
Theorem check_argv_first_occurrence (argc : Z) (argv : list string)
    (str : string) :
  let r := msvmmaj_check_argv argc argv str in
  ((r = 0 ∧
    forall i, 1 <= i < argc -> ~ occurs_in str (aget EmptyString argv i)) ∨
   (1 <= r < argc ∧ occurs_in str (aget EmptyString argv r) ∧
    forall i, 1 <= i < r -> ~ occurs_in str (aget EmptyString argv i))) ∧
  (msvmmaj_check_argv_eq argc argv str ≠ 0 ->
   1 <= r <= msvmmaj_check_argv_eq argc argv str).
Proof.
  intros r. subst r.
  assert (Hspec :
    let r := msvmmaj_check_argv argc argv str in
    (r = 0 ∧
     forall i, 1 <= i < argc -> ~ occurs_in str (aget EmptyString argv i)) ∨
    (1 <= r < argc ∧ occurs_in str (aget EmptyString argv r) ∧
     forall i, 1 <= i < r -> ~ occurs_in str (aget EmptyString argv i))).
  { unfold msvmmaj_check_argv.
    destruct (first_match_loop
                (fun i => strstr_found (aget EmptyString argv i) str) argc)
      as [(-> & Hnone)|(Hr & Htest & Hfirst)].
    - left. split; [done|]. intros i Hi Hocc.
      apply strstr_found_iff in Hocc. rewrite Hnone in Hocc by done. done.
    - right. split; [done|]. split; [by apply strstr_found_iff|].
      intros i Hi Hocc. apply strstr_found_iff in Hocc.
      rewrite Hfirst in Hocc by done. done. }
  split; [exact Hspec|]. intros Heq.
  assert (Heqr : 1 <= msvmmaj_check_argv_eq argc argv str < argc ∧
    aget EmptyString argv (msvmmaj_check_argv_eq argc argv str) = str).
  { unfold msvmmaj_check_argv_eq in *.
    destruct (first_match_loop
                (fun i => String.eqb (aget EmptyString argv i) str) argc)
      as [(H0 & _)|(Hr & Htest & _)]; [done|].
    split; [done|]. by apply String.eqb_eq. }
  destruct Heqr as (Hr & Hstr).
  assert (Hocc : occurs_in str
            (aget EmptyString argv (msvmmaj_check_argv_eq argc argv str))).
  { rewrite Hstr. exists EmptyString, EmptyString. simpl.
    by rewrite string_app_empty. }
  simpl in Hspec. destruct Hspec as [(_ & Hnone)|(Hr' & _ & Hfirst)].
  - exfalso. by apply (Hnone _ Hr).
  - split; [lia|].
    destruct (decide (msvmmaj_check_argv argc argv str
                      <= msvmmaj_check_argv_eq argc argv str)); [done|].
    exfalso. apply (Hfirst (msvmmaj_check_argv_eq argc argv str)); [lia|done].
Qed.

(** ** msvmmaj_read_data on files with one instance per line *)

(** Reading the features of one line.  The reader stands at the start of
    the line, or at the end of the line before it; afterwards it stands
    behind the features, has counted them, and holds the last of them; the
    features are in the cells of the row from column [a] on and no other
    cell has changed. *)
Lemma read_tokens (cols i : Z) (feats tail : list R) (rest : list (list R))
    (a nr : Z) (value : R) (lines : list (list R)) (Zm : list R) :
  lines = (feats ++ tail) :: rest ∨
  (feats ≠ [] ∧ lines = [] :: (feats ++ tail) :: rest) ->
  exists Zm',
    for_loop a (a + Z.of_nat (length feats)) (fun j '(rd, Zm) =>
      let rd := fscanf_value rd in
      (rd, matrix_set Zm cols i j (rd_value rd)))
      ({| rd_lines := lines; rd_nr := nr; rd_value := value |}, Zm)
    = ({| rd_lines := tail :: rest;
          rd_nr := nr + Z.of_nat (length feats);
          rd_value := default value (last feats) |}, Zm') ∧
    length Zm' = length Zm ∧
    (forall (t : nat) (v : R), feats !! t = Some v ->
       0 <= i * cols + (a + Z.of_nat t) < Z.of_nat (length Zm) ->
       Zm'.[i * cols + (a + Z.of_nat t)] = v) ∧
    (forall p, (forall t : nat, (t < length feats)%nat ->
                  p ≠ i * cols + (a + Z.of_nat t)) ->
       Zm'.[p] = Zm.[p]).
Proof.
  revert a nr value lines Zm.
  induction feats as [|v feats IH]; intros a nr value lines Zm Hlines.
  - destruct Hlines as [->|(Hne & _)]; [|done].
    exists Zm. rewrite for_loop_nil by (simpl; lia). simpl.
    rewrite Z.add_0_r. done.
  - match goal with
    | |- context [for_loop _ _ ?f _] => set (body := f) in *
    end.
    rewrite for_loop_first by (simpl length; lia).
    assert (Hstep : body a
              ({| rd_lines := lines; rd_nr := nr; rd_value := value |}, Zm)
            = ({| rd_lines := (feats ++ tail) :: rest; rd_nr := nr + 1;
                  rd_value := v |}, matrix_set Zm cols i a v)).
    { destruct Hlines as [->|(_ & ->)]; reflexivity. }
    rewrite Hstep.
    destruct (IH (a + 1) (nr + 1) v ((feats ++ tail) :: rest)
                (matrix_set Zm cols i a v) ltac:(by left))
      as (Zm' & Hrun & Hlen & Hcells & Hframe).
    unfold matrix_set in Hlen, Hcells, Hframe. rewrite length_aset in Hlen, Hcells.
    exists Zm'. split; [|split; [done|split]].
    + replace (a + Z.of_nat (length (v :: feats)))
        with (a + 1 + Z.of_nat (length feats)) by (simpl length; lia).
      rewrite Hrun. f_equal. f_equal.
      * simpl length. lia.
      * destruct feats as [|w feats]; [done|]. rewrite last_cons_cons.
        destruct (proj2 (last_is_Some (w :: feats)) ltac:(done)) as [z ->].
        done.
    + intros [|t] w Hw Hin.
      * injection Hw as <-. rewrite Hframe by (intros t _; lia).
        replace (a + Z.of_nat 0) with a in * by lia.
        by apply aget_aset_eq.
      * simpl in Hw.
        replace (a + Z.of_nat (S t)) with (a + 1 + Z.of_nat t) in * by lia.
        by apply Hcells.
    + intros p Hp. rewrite Hframe.
      * apply aget_aset_ne. specialize (Hp 0%nat ltac:(simpl; lia)). lia.
      * intros t Ht. specialize (Hp (S t) ltac:(simpl; lia)). lia.
Qed.

Lemma read_row_tokens (m cols i : Z) (feats tail : list R)
    (rest : list (list R)) (nr : Z) (value : R) (lines : list (list R))
    (Zm : list R) :
  Z.of_nat (length feats) = m ->
  lines = (feats ++ tail) :: rest ∨
  (feats ≠ [] ∧ lines = [] :: (feats ++ tail) :: rest) ->
  exists Zm',
    read_row m cols i {| rd_lines := lines; rd_nr := nr; rd_value := value |}
      Zm
    = ({| rd_lines := tail :: rest; rd_nr := nr + m;
          rd_value := default value (last feats) |}, Zm') ∧
    length Zm' = length Zm ∧
    (forall c, 1 <= c <= m ->
       0 <= i * cols + c < Z.of_nat (length Zm) ->
       Zm'.[i * cols + c] = feats.[c - 1]) ∧
    (forall p, (forall c, 1 <= c <= m -> p ≠ i * cols + c) ->
       Zm'.[p] = Zm.[p]).
Proof.
  intros Hm Hlines. unfold read_row.
  destruct (read_tokens cols i feats tail rest 1 nr value lines Zm Hlines)
    as (Zm' & Hrun & Hlen & Hcells & Hframe).
  exists Zm'. split; [|split; [done|split]].
  - subst m. rewrite (Z.add_comm (Z.of_nat (length feats)) 1). exact Hrun.
  - intros c Hc Hin.
    destruct (lookup_lt_is_Some_2 feats (Z.to_nat (c - 1))) as [v Hv]; [lia|].
    rewrite (aget_lookup 0%R feats (c - 1) v) by (done || lia).
    specialize (Hcells (Z.to_nat (c - 1)) v Hv).
    replace (1 + Z.of_nat (Z.to_nat (c - 1))) with c in Hcells by lia.
    by apply Hcells.
  - intros p Hp. apply Hframe. intros t Ht. apply Hp. lia.
Qed.

(** The loop that adds one to every label. *)
Lemma shift_labels_loop (labels : list Z) (n : Z) :
  Z.of_nat (length labels) = n ->
  for_loop 0 n (fun i yv => aset yv i (aget 0 yv i + 1)) labels
  = (fun l => l + 1) <$> labels.
Proof.
  intros Hn.
  assert (Hinv : for_loop 0 n (fun i yv => aset yv i (aget 0 yv i + 1)) labels
    = ((fun l => l + 1) <$> take (Z.to_nat n) labels)
      ++ drop (Z.to_nat n) labels).
  { apply (for_loop_inv (fun k acc =>
      acc = ((fun l => l + 1) <$> take (Z.to_nat k) labels)
            ++ drop (Z.to_nat k) labels)); [lia|done|].
    intros k acc Hk ->.
    destruct (lookup_lt_is_Some_2 labels (Z.to_nat k)) as [l Hl]; [lia|].
    assert (Hlk : length ((fun l => l + 1) <$> take (Z.to_nat k) labels)
                  = Z.to_nat k)
      by (rewrite length_fmap, length_take; lia).
    rewrite (aget_lookup 0 _ k l); [|lia|].
    2:{ rewrite lookup_app_r by lia. rewrite Hlk, Nat.sub_diag.
        by rewrite lookup_drop, Nat.add_0_r. }
    unfold aset. rewrite decide_True by lia.
    replace (Z.to_nat (k + 1)) with (S (Z.to_nat k)) by lia.
    rewrite (take_S_r _ _ l) by done. rewrite fmap_app. simpl.
    rewrite <- app_assoc. simpl.
    rewrite insert_app_r_alt by lia. rewrite Hlk, Nat.sub_diag.
    f_equal. rewrite (drop_S _ l) by done. done. }
  rewrite Hinv. rewrite take_ge, drop_ge by lia. by rewrite app_nil_r.
Qed.

(** The last loop of msvmmaj_read_data puts 1 into the first cell of every
    row and changes nothing else. *)
Lemma ones_loop (n m : Z) (Zm : list R) :
  0 <= n -> 0 <= m -> Z.of_nat (length Zm) = n * (m + 1) ->
  let Zm' := for_loop 0 n (fun i Zm => matrix_set Zm (m + 1) i 0 1%R) Zm in
  length Zm' = length Zm ∧
  (forall i, 0 <= i < n -> matrix_get Zm' (m + 1) i 0 = 1%R) ∧
  (forall i c, 0 <= i < n -> 1 <= c <= m ->
     matrix_get Zm' (m + 1) i c = matrix_get Zm (m + 1) i c).
Proof.
  intros Hn Hm Hlen Zm'. subst Zm'.
  destruct (aset_loop 0%R 0 n (fun i => i * (m + 1) + 0) (fun _ => 1%R) Zm)
    as (Hl & Hset & Hframe); [done| | |].
  { intros i Hi. rewrite Hlen. nia. }
  { intros i j _ _ Heq. nia. }
  split; [exact Hl|]. split.
  - intros i Hi. by apply Hset.
  - intros i c Hi Hc. apply Hframe. intros i' Hi' Heq.
    apply (cell_index_inj (m + 1) i' 0 i c) in Heq; lia.
Qed.

Lemma insert_next_label (labels : list Z) (k : nat) (l u : Z) (n : nat) :
  labels !! k = Some l -> (k < n)%nat ->
  <[k := l]> (take k labels ++ replicate (n - k) u)
  = take (S k) labels ++ replicate (n - S k) u.
Proof.
  intros Hl Hk.
  assert (Hlen : length (take k labels) = k).
  { apply length_take_le. apply lookup_lt_Some in Hl. lia. }
  rewrite insert_app_r_alt by lia. rewrite Hlen, Nat.sub_diag.
  replace (n - k)%nat with (S (n - S k)) by lia. simpl.
  rewrite (take_S_r _ _ l) by done. by rewrite <- app_assoc.
Qed.

Section read_data_files.
Context (uninit : R) (uninit_long : Z).

(** The run of msvmmaj_read_data on a file with one instance per line,
    every line with [m] features and, when [lab] holds, a label behind
    them. *)
Lemma read_data_run (lab : bool) (dataset : MajData) (m : Z)
    (rows : list (list R * Z)) :
  1 <= m -> rows ≠ [] ->
  Forall (fun row => Z.of_nat (length row.1) = m) rows ->
  let n := Z.of_nat (length rows) in
  let labels := rows.*2 in
  let hi := if lab then foldl Z.max 0 (tail labels) else 0 in
  let lo := if lab then foldl Z.min 1000 (tail labels) else 1000 in
  let fid :=
    {| file_n := n; file_m := m;
       file_lines :=
         [] :: ((fun row => row.1 ++ (if lab then [IZR row.2] else []))
                <$> rows) |} in
  exists Zm,
    Z.of_nat (length Zm) = n * (m + 1) ∧
    (forall i, 0 <= i < n -> matrix_get Zm (m + 1) i 0 = 1%R) ∧
    (forall i c row, 0 <= i -> rows !! Z.to_nat i = Some row ->
       1 <= c <= m -> matrix_get Zm (m + 1) i c = row.1.[c - 1]) ∧
    msvmmaj_read_data uninit uninit_long dataset (Some fid)
    = if decide (lo < 0) then Exit 0
      else Ret {| data_K := if decide (lo = 0) then hi + 1 else hi;
                  data_n := n; data_m := m; data_r := data_r dataset;
                  data_y :=
                    if lab
                    then Some ((fun l => if decide (lo = 0) then l + 1 else l)
                               <$> labels)
                    else None;
                  data_Z := Zm;
                  data_RAW := data_RAW dataset; data_J := data_J dataset;
                  data_kerneltype := data_kerneltype dataset;
                  data_kernelparam := data_kernelparam dataset;
                  data_use_cholesky := data_use_cholesky dataset |}.
Proof.
  intros Hm Hrows Hfeat n labels hi lo fid.
  destruct rows as [|[f0 l0] more]; [done|].
  set (line := fun row : list R * Z =>
                 row.1 ++ (if lab then [IZR row.2] else [])) in *.
  assert (Hf0 : Z.of_nat (length f0) = m)
    by (by apply Forall_cons_1 in Hfeat as [? _]).
  assert (Hmore : Forall (fun row => Z.of_nat (length row.1) = m) more)
    by (by apply Forall_cons_1 in Hfeat as [_ ?]).
  assert (Hn : n = Z.of_nat (length more) + 1)
    by (unfold n; simpl length; lia).
  set (N := Z.to_nat (n * (m + 1))).
  assert (HN : Z.of_nat N = n * (m + 1)) by (unfold N; nia).
  unfold msvmmaj_read_data, fid.
  cbn [file_n file_m file_lines]. rewrite fmap_cons.
  unfold line at 1. cbn [fst snd]. fold N.
  destruct (read_row_tokens m n 0 f0 (if lab then [IZR l0] else [])
              (line <$> more) 2 uninit
              ([] :: (f0 ++ (if lab then [IZR l0] else []))
                  :: (line <$> more))
              (replicate N uninit) Hf0)
    as (Zm1 & -> & Hlen1 & Hcells1 & _).
  { right. split; [|done]. intros ->. simpl in Hf0. lia. }
  rewrite length_replicate in Hlen1, Hcells1.
  cbn [rd_lines rd_nr rd_value].
  set (more2 := more.*2).
  set (w := if lab then 1 else 0).
  match goal with
  | |- context [for_loop 1 n ?f _] => set (body := f)
  end.
  assert (Hloop : exists rd Zm,
    for_loop 1 n body
      ({| rd_lines := line <$> more; rd_nr := 2 + m;
          rd_value := if lab then IZR l0
                      else default uninit (last f0) |}, Zm1,
       if lab then Some (aset (replicate (Z.to_nat n) uninit_long) 0 l0)
       else None, 0, 1000)
    = (rd, Zm, if lab then Some labels else None, hi, lo) ∧
    rd_nr rd = 2 + m + (n - 1) * (m + w) ∧
    length Zm = N ∧
    (forall i c row, 0 <= i -> ((f0, l0) :: more) !! Z.to_nat i = Some row ->
       1 <= c <= m -> Zm.[i * (m + 1) + c] = row.1.[c - 1])).
  { assert (Hinv : let st := for_loop 1 n body
      ({| rd_lines := line <$> more; rd_nr := 2 + m;
          rd_value := if lab then IZR l0
                      else default uninit (last f0) |}, Zm1,
       if lab then Some (aset (replicate (Z.to_nat n) uninit_long) 0 l0)
       else None, 0, 1000) in
      exists lines nr value Zm,
        let j := Z.to_nat (n - 1) in
        st = ({| rd_lines := lines; rd_nr := nr; rd_value := value |}, Zm,
              (if lab
               then Some (l0 :: take j more2
                            ++ replicate (length more - j) uninit_long)
               else None),
              (if lab then foldl Z.max 0 (take j more2) else 0),
              (if lab then foldl Z.min 1000 (take j more2) else 1000)) ∧
        (lines = line <$> drop j more ∨ lines = [] :: (line <$> drop j more)) ∧
        nr = 2 + m + (n - 1) * (m + w) ∧ length Zm = N ∧
        (forall i c row, 0 <= i < n ->
           ((f0, l0) :: more) !! Z.to_nat i = Some row ->
           1 <= c <= m -> Zm.[i * (m + 1) + c] = row.1.[c - 1])).
    { apply (for_loop_inv (fun k st =>
        exists lines nr value Zm,
          let j := Z.to_nat (k - 1) in
          st = ({| rd_lines := lines; rd_nr := nr; rd_value := value |}, Zm,
                (if lab
                 then Some (l0 :: take j more2
                              ++ replicate (length more - j) uninit_long)
                 else None),
                (if lab then foldl Z.max 0 (take j more2) else 0),
                (if lab then foldl Z.min 1000 (take j more2) else 1000)) ∧
          (lines = line <$> drop j more ∨
           lines = [] :: (line <$> drop j more)) ∧
          nr = 2 + m + (k - 1) * (m + w) ∧ length Zm = N ∧
          (forall i c row, 0 <= i < k ->
             ((f0, l0) :: more) !! Z.to_nat i = Some row ->
             1 <= c <= m -> Zm.[i * (m + 1) + c] = row.1.[c - 1]))).
      - lia.
      - exists (line <$> more), (2 + m),
          (if lab then IZR l0 else default uninit (last f0)), Zm1.
        change (Z.to_nat (1 - 1)) with 0%nat. cbn zeta. rewrite take_0, drop_0.
        split; [|split; [by left|split; [lia|split; [done|]]]].
        + destruct lab; [|reflexivity]. unfold aset.
          rewrite decide_True by lia. rewrite Hn.
          replace (Z.to_nat (Z.of_nat (length more) + 1))
            with (S (length more)) by lia.
          rewrite Nat.sub_0_r. reflexivity.
        + intros i c row Hi Hrow Hc. assert (i = 0) as -> by lia.
          injection Hrow as <-. cbn [fst].
          replace (0 * (m + 1) + c) with (0 * n + c) by lia.
          apply Hcells1; [done|]. nia.
      - intros k st Hk (lines & nr & value & Zm & Hst).
        cbn zeta in Hst.
        destruct Hst as (-> & Hlines & -> & HlenZ & HcellsZ).
        set (j := Z.to_nat (k - 1)) in *.
        assert (Hj : (j < length more)%nat) by lia.
        destruct (lookup_lt_is_Some_2 more j Hj) as [[feats l] Hrow].
        assert (Hfl : Z.of_nat (length feats) = m).
        { eapply Forall_lookup_1 in Hmore; [|exact Hrow]. done. }
        rewrite (drop_S _ _ _ Hrow) in Hlines. rewrite fmap_cons in Hlines.
        unfold line at 1 3 in Hlines. cbn [fst snd] in Hlines.
        destruct (read_row_tokens m (m + 1) k feats
                    (if lab then [IZR l] else [])
                    (line <$> drop (S j) more) (2 + m + (k - 1) * (m + w))
                    value lines Zm Hfl)
          as (Zm' & Hread & HlenZ' & Hcells' & Hframe').
        { destruct Hlines as [->| ->]; [by left|right].
          split; [|done]. intros ->. simpl in Hfl. lia. }
        unfold body. rewrite Hread.
        replace (Z.to_nat (k + 1 - 1)) with (S j) by lia.
        assert (Hl2 : more2 !! j = Some l).
        { unfold more2. rewrite list_lookup_fmap, Hrow. done. }
        assert (HZ' : forall i c row, 0 <= i < k + 1 ->
                  ((f0, l0) :: more) !! Z.to_nat i = Some row ->
                  1 <= c <= m -> Zm'.[i * (m + 1) + c] = row.1.[c - 1]).
        { intros i c row Hi Hr Hc. destruct (decide (i = k)) as [->|Hik].
          - replace (Z.to_nat k) with (S j) in Hr by lia. simpl in Hr.
            rewrite Hrow in Hr. injection Hr as <-. cbn [fst].
            apply Hcells'; [done|]. rewrite HlenZ, HN. nia.
          - rewrite Hframe'.
            + apply HcellsZ; [lia|done|done].
            + intros c' Hc' Heq.
              apply (cell_index_inj (m + 1) i c k c') in Heq; lia. }
        destruct lab.
        + change (fscanf_value
                    {| rd_lines := [IZR l] :: (line <$> drop (S j) more);
                       rd_nr := 2 + m + (k - 1) * (m + w) + m;
                       rd_value := default value (last feats) |})
            with {| rd_lines := [] :: (line <$> drop (S j) more);
                    rd_nr := 2 + m + (k - 1) * (m + w) + m + 1;
                    rd_value := IZR l |}.
          cbn [rd_value].
          rewrite maximum_IZR, minimum_IZR, !long_of_double_IZR.
          eexists _, _, _, Zm'. cbn zeta.
          split; [|split; [by right|split; [|split]]].
          * f_equal; [f_equal; [f_equal|]|].
            -- f_equal. unfold aset. rewrite decide_True by lia.
               replace (Z.to_nat k) with (S j) by lia. simpl. f_equal.
               apply insert_next_label; done.
            -- rewrite (take_S_r _ _ l) by done. by rewrite foldl_app.
            -- rewrite (take_S_r _ _ l) by done. by rewrite foldl_app.
          * unfold w. lia.
          * by rewrite HlenZ'.
          * exact HZ'.
        + eexists _, _, _, Zm'. cbn zeta.
          split; [reflexivity|]. split; [by right|].
          split; [unfold w; lia|]. split; [by rewrite HlenZ'|exact HZ']. }
    destruct Hinv as (lines & nr & value & Zm & Hst). cbn zeta in Hst.
    destruct Hst as (Hst & _ & Hnr & HlenZ & HcellsZ).
    replace (Z.to_nat (n - 1)) with (length more) in Hst by lia.
    rewrite Nat.sub_diag in Hst. simpl replicate in Hst.
    rewrite app_nil_r in Hst.
    rewrite take_ge in Hst by (unfold more2; rewrite length_fmap; lia).
    eexists _, Zm. split; [exact Hst|]. split; [exact Hnr|].
    split; [done|]. intros i c row Hi Hr Hc. apply HcellsZ; [|done|done].
    apply lookup_lt_Some in Hr. simpl length in Hr. lia. }
  destruct Hloop as (rd & Zm & Hrun & Hnr & HlenZ & HcellsZ).
  assert (Hcount : ~ rd_nr rd < n * m).
  { rewrite Hnr. unfold w. destruct lab; nia. }
  assert (Hlabels : Z.of_nat (length labels) = n).
  { unfold labels, n. by rewrite length_fmap. }
  destruct (ones_loop n m Zm ltac:(lia) ltac:(lia) ltac:(lia))
    as (Hlen' & Hones & Hkeep).
  exists (for_loop 0 n (fun i Zm => matrix_set Zm (m + 1) i 0 1%R) Zm).
  split; [lia|]. split; [exact Hones|]. split.
  { intros i c row Hi Hr Hc. rewrite Hkeep; [|split; [done|]|done].
    - by apply HcellsZ.
    - apply lookup_lt_Some in Hr. simpl length in Hr. lia. }
  destruct lab.
  - rewrite long_of_double_IZR, Hrun. cbv beta iota zeta.
    destruct (decide (lo < 0)) as [Hlo|Hlo].
    + rewrite decide_False by lia. reflexivity.
    + destruct (decide (lo = 0)) as [Hz|Hnz].
      * outcome_simpl. rewrite decide_False by done. cbn [fmap option_fmap option_map].
        rewrite shift_labels_loop by done. reflexivity.
      * outcome_simpl. rewrite decide_False by done.
        rewrite list_fmap_id. reflexivity.
  - rewrite Hrun. cbv beta iota zeta. unfold lo, hi.
    rewrite decide_False by lia. rewrite (decide_False (P := 1000 < 0)) by lia.
    outcome_simpl. rewrite decide_False by done. reflexivity.
Qed.

(** X18. On a labeled file with one instance per line, m >= 1 features
    and integral labels, msvmmaj_read_data looks at the labels from the
    second line on only: with [lo] the smallest of 1000 and these labels
    and [hi] the largest of 0 and these labels, it stops with status 0 when
    lo < 0; otherwise it returns with n and m as in the file and, when
    lo = 0, all labels (the first one too) raised by one and K = hi + 1,
    and when lo > 0 the labels as they are and K = hi. *)
Theorem read_data_labeled_file (dataset : MajData) (m : Z)
    (rows : list (list R * Z)) :
  1 <= m -> rows ≠ [] ->
  Forall (fun row => Z.of_nat (length row.1) = m) rows ->
  let labels := rows.*2 in
  let hi := foldl Z.max 0 (tail labels) in
  let lo := foldl Z.min 1000 (tail labels) in
  let fid := {| file_n := Z.of_nat (length rows); file_m := m;
                file_lines := labeled_lines rows |} in
  (lo < 0 ->
   msvmmaj_read_data uninit uninit_long dataset (Some fid) = Exit 0) ∧
  (0 <= lo ->
   exists d,
     msvmmaj_read_data uninit uninit_long dataset (Some fid) = Ret d ∧
     data_n d = Z.of_nat (length rows) ∧ data_m d = m ∧
     data_y d = Some ((fun l => if decide (lo = 0) then l + 1 else l)
                      <$> labels) ∧
     data_K d = if decide (lo = 0) then hi + 1 else hi).
Proof.
  intros Hm Hrows Hfeat labels hi lo fid.
  pose proof (read_data_run true dataset m rows Hm Hrows Hfeat) as Hrun.
  cbv beta iota zeta in Hrun. destruct Hrun as (Zm & _ & _ & _ & Hrun).
  unfold fid, labeled_lines. rewrite Hrun. split.
  - intros Hlo. by rewrite decide_True.
  - intros Hlo. rewrite decide_False by (unfold lo, labels in Hlo; lia).
    eexists. split; [reflexivity|]. done.
Qed.


(** X20. Whenever msvmmaj_read_data returns on a file with one instance
    per line and m >= 1 features, labeled or not, the matrix Z has n rows
    of m + 1 cells, every row starts with 1 and holds behind it the features
    of its instance in the order of the file; the raw data, the vector J,
    the kernel settings and r of the dataset are untouched. *)
Theorem read_data_matrix (dataset d : MajData) (m : Z)
    (rows : list (list R * Z)) (lines : list (list R)) :
  1 <= m -> rows ≠ [] ->
  Forall (fun row => Z.of_nat (length row.1) = m) rows ->
  lines = labeled_lines rows ∨ lines = unlabeled_lines rows.*1 ->
  let n := Z.of_nat (length rows) in
  msvmmaj_read_data uninit uninit_long dataset
    (Some {| file_n := n; file_m := m; file_lines := lines |}) = Ret d ->
  Z.of_nat (length (data_Z d)) = n * (m + 1) ∧
  (forall i, 0 <= i < n -> matrix_get (data_Z d) (m + 1) i 0 = 1%R) ∧
  (forall i c row, 0 <= i -> rows !! Z.to_nat i = Some row -> 1 <= c <= m ->
     matrix_get (data_Z d) (m + 1) i c = row.1.[c - 1]) ∧
  data_RAW d = data_RAW dataset ∧ data_J d = data_J dataset ∧
  data_kerneltype d = data_kerneltype dataset ∧
  data_kernelparam d = data_kernelparam dataset ∧
  data_r d = data_r dataset.
Proof.
  intros Hm Hrows Hfeat Hlines n Hret.
  assert (Hrun : exists lab : bool,
    lines = [] :: ((fun row : list R * Z =>
                      row.1 ++ (if lab then [IZR row.2] else [])) <$> rows)).
  { destruct Hlines as [->| ->]; [by exists true|exists false].
    unfold unlabeled_lines. f_equal. apply list_fmap_ext.
    intros i row _. simpl. by rewrite app_nil_r. }
  destruct Hrun as [lab ->].
  pose proof (read_data_run lab dataset m rows Hm Hrows Hfeat) as Hrun.
  cbv beta zeta in Hrun.
  destruct Hrun as (Zm & HlenZ & Hones & Hcells & Hrun).
  fold n in Hrun, HlenZ, Hones. rewrite Hrun in Hret.
  destruct (decide _) in Hret; [done|]. injection Hret as <-.
  cbn [data_Z data_RAW data_J data_kerneltype data_kernelparam data_r].
  done.
Qed.

End read_data_files.

Lemma read_data_labeled_file_witness :
  exists d,
    msvmmaj_read_data 0%R 0 (small_data 0)
      (Some {| file_n := 2; file_m := 1;
               file_lines := labeled_lines [([5%R], 2); ([7%R], 0)] |})
    = Ret d ∧
    data_y d = Some [3; 1] ∧ data_K d = 1.
Proof.
  destruct (read_data_labeled_file 0%R 0 (small_data 0) 1
              [([5%R], 2); ([7%R], 0)] ltac:(lia) ltac:(done)
              ltac:(repeat constructor)) as [_ H].
  destruct (H ltac:(simpl; lia)) as (d & Hrun & _ & _ & Hy & HK).
  exists d. split; [exact Hrun|]. split; [exact Hy|exact HK].
Defined.


Lemma read_data_matrix_witness :
  exists d,
    msvmmaj_read_data 0%R 0 (small_data 0)
      (Some {| file_n := 2; file_m := 1;
               file_lines := labeled_lines [([5%R], 2); ([7%R], 1)] |})
    = Ret d ∧
    matrix_get (data_Z d) 2 1 0 = 1%R ∧ matrix_get (data_Z d) 2 1 1 = 7%R.
Proof.
  destruct (read_data_run 0%R 0 true (small_data 0) 1
              [([5%R], 2); ([7%R], 1)] ltac:(lia) ltac:(done)
              ltac:(repeat constructor))
    as (Zm & _ & _ & _ & Hrun).
  eexists. split; [exact Hrun|].
  destruct (read_data_matrix 0%R 0 (small_data 0) _ 1
              [([5%R], 2); ([7%R], 1)] _ ltac:(lia) ltac:(done)
              ltac:(repeat constructor) (or_introl eq_refl) Hrun)
    as (_ & Hones & Hcells & _).
  split.
  - apply (Hones 1). simpl. lia.
  - apply (Hcells 1 1 ([7%R], 1)); [lia|reflexivity|lia].
Defined.

(** ** msvmmaj_read_data on a file that ends behind its header *)

Lemma fscanf_lf_empty_lines (lines : list (list R)) :
  Forall (fun l => l = []) lines -> fscanf_lf lines = None.
Proof.
  induction 1 as [|l lines -> _ IH]; [done|]. exact IH.
Qed.

Lemma read_row_empty_lines (m cols i : Z) (rd : reader) (Zm : list R) :
  1 <= m -> Forall (fun l => l = []) (rd_lines rd) ->
  rd_lines (read_row m cols i rd Zm).1 = [].
Proof.
  intros Hm Hlines. unfold read_row.
  match goal with
  | |- context [for_loop _ _ ?f _] => set (body := f)
  end.
  assert (Hinv : Forall (fun l => l = [])
                   (rd_lines (for_loop 1 (m + 1) body (rd, Zm)).1) ∧
                 (1 < m + 1 ->
                  rd_lines (for_loop 1 (m + 1) body (rd, Zm)).1 = [])).
  { apply (for_loop_inv (fun k st =>
      Forall (fun l => l = []) (rd_lines st.1) ∧
      (1 < k -> rd_lines st.1 = []))); [lia|split; [done|lia]|].
    intros k [rd' Zm'] Hk [Hall _]. cbn [fst] in Hall.
    assert (Hnil : rd_lines (body k (rd', Zm')).1 = []).
    { unfold body. cbn [fst]. unfold fscanf_value.
      by rewrite (fscanf_lf_empty_lines _ Hall). }
    rewrite Hnil. done. }
  apply Hinv. lia.
Qed.

(** X21. When no number stands behind the two dimensions of the file (it
    ends there or only empty lines follow), msvmmaj_read_data stops the
    process with status 1, for every n >= 1 and m >= 1. *)
Theorem read_data_no_numbers (uninit : R) (uninit_long : Z)
    (dataset : MajData) (n m : Z) (lines : list (list R)) :
  1 <= n -> 1 <= m -> Forall (fun l => l = []) lines ->
  msvmmaj_read_data uninit uninit_long dataset
    (Some {| file_n := n; file_m := m; file_lines := lines |}) = Exit 1.
Proof.
  intros Hn Hm Hlines. unfold msvmmaj_read_data.
  cbn [file_n file_m file_lines].
  pose proof (read_row_empty_lines m n 0
                {| rd_lines := lines; rd_nr := 2; rd_value := uninit |}
                (replicate (Z.to_nat (n * (m + 1))) uninit) Hm Hlines)
    as Hnil.
  destruct (read_row m n 0 _ _) as [rd Zm]. cbn [fst] in Hnil.
  by rewrite Hnil.
Qed.

Lemma read_data_no_numbers_witness :
  msvmmaj_read_data 0%R 0 (small_data 0)
    (Some {| file_n := 3; file_m := 2; file_lines := [[]; []] |}) = Exit 1.
Proof.
  apply (read_data_no_numbers 0%R 0 (small_data 0) 3 2 [[]; []]);
    [lia|lia|repeat constructor].
Defined.
